(** * EPF debug adapter: record projection, record observation and the
      watch / release lifecycle

    A shallow embedding of [Ep.DebugAdapter] (lib/debug/debug_adapter.js and
    its earlier revisions) together with the methods it inherits from the
    data-adapter base class ([watchRecords], [wrapRecord], [willDestroy]).

    JavaScript values are a small tagged union, objects used as dictionaries
    are [gmap string value], arrays are lists, and everything that mutates
    shared state (observer tables, release registries, arrays held by
    closures, promise callbacks) goes through one explicit [world]. *)

From stdpp Require Import gmap strings list fin_maps.
From Stdlib Require Import ZArith Lia.

Open Scope string_scope.
Open Scope Z_scope.
Open Scope list_scope.

(** ** JavaScript values *)

Inductive value :=
| VUndefined
| VNull
| VBool (b : bool)
| VNum (n : Z)
| VStr (s : string).

#[global] Instance value_eq_dec : EqDecision value.
Proof. solve_decision. Defined.

(** [if (v)]: the truthiness test of an [if] condition. *)
Definition truthy (v : value) : bool :=
  match v with
  | VUndefined | VNull => false
  | VBool b => b
  | VNum n => negb (n =? 0)
  | VStr s => negb (bool_decide (s = ""))
  end.

(** [a === b] on the values above. *)
Definition strict_eq (a b : value) : bool := bool_decide (a = b).

(** ** Records (model instances)

    A record carries its class's declared attribute names, in declaration
    order, and its current property values ([id], the attributes and the
    status flags are all read with [get]). *)

Record model := Model {
  attributes : list string;
  properties : gmap string value
}.

#[global] Instance model_eq_dec : EqDecision model.
Proof. solve_decision. Defined.

(** [Ember.get(record, key)] / [record.get(key)]: an absent property reads as
    [undefined]. *)
Definition get (record : model) (key : string) : value :=
  default VUndefined (properties record !! key).

(** [record.eachAttribute(callback)]: calls [callback(key)] for every declared
    attribute in declaration order; the callback's return value is ignored
    (returning [false] does not stop the iteration). *)
Definition eachAttribute {S : Type} (record : model)
    (callback : string → S → S) (s : S) : S :=
  foldl (λ acc key, callback key acc) s (attributes record).

(** ** Record projection, shared by every revision that implements it *)

(** [getRecordColumnValues]:
<<
    var self = this, count = 0, columnValues = { id: get(record, 'id') };
    record.eachAttribute(function(key) {
      if (count++ > self.attributeLimit) { return false; }
      var value = get(record, key);
      columnValues[key] = value;
    });
    return columnValues;
>>
    The state threaded through the loop is the pair [(count, columnValues)];
    [count++ > limit] compares the value before the increment. *)
Definition columnValues_step (attributeLimit : Z) (record : model)
    (key : string) (st : Z * gmap string value) : Z * gmap string value :=
  let '(count, columnValues) := st in
  if attributeLimit <? count
  then (count + 1, columnValues)
  else (count + 1, <[key := get record key]> columnValues).

Definition getRecordColumnValues (attributeLimit : Z) (record : model)
    : gmap string value :=
  (eachAttribute record (columnValues_step attributeLimit record)
     (0, {[ "id" := get record "id" ]})).2.

(** [getRecordKeywords]:
<<
    var keywords = [], keys = Ember.A(['id']);
    record.eachAttribute(function(key) { keys.push(key); });
    keys.forEach(function(key) { keywords.push(get(record, key)); });
    return keywords;
>> *)
Definition getRecordKeywords (record : model) : list value :=
  let keys := eachAttribute record (λ key keys, keys ++ [key]) ["id"] in
  foldl (λ keywords key, keywords ++ [get record key]) [] keys.

(** [getRecordFilterValues]: the five status flags, keyed by filter name. *)
Definition getRecordFilterValues (record : model) : gmap string value :=
  <["isPromise" := get record "isPromise"]>
  (<["isProxy" := get record "isProxy"]>
  (<["isNew" := get record "isNew"]>
  (<["isDeleted" := get record "isDeleted"]>
  (<["isLoaded" := get record "isLoaded"]> ∅)))).


(** ** Wrapped records, closures and the shared world *)

(** The object [wrapRecord] sends to the inspector; [object] is the
    reference back to the record. *)
Record wrapped := Wrapped {
  object : nat;
  columnValues : gmap string value;
  searchKeywords : list value;
  filterValues : gmap string value;
  color : value
}.

#[global] Instance wrapped_eq_dec : EqDecision wrapped.
Proof. solve_decision. Defined.

(** Callbacks supplied by the inspector are opaque: they are named by a
    string and every invocation is recorded, with its argument, in the
    world's [trace]. *)
Inductive event :=
| Call1 (f : string) (w : wrapped)            (* f(wrapped) *)
| CallBatch (f : string) (ws : list wrapped)  (* f([wrapped, ...]) *)
| CallRemoved (f : string) (idx count : nat). (* f(idx, count) *)

#[global] Instance event_eq_dec : EqDecision event.
Proof. solve_decision. Defined.

(** The [recordUpdated] argument of [observeRecord]: either a callback of
    the inspector, or the closure
    [function(updatedRecord) { recordsUpdated([updatedRecord]); }] that
    [watchRecords] builds. *)
Inductive recordUpdatedFn :=
| ConsumerRecordUpdated (f : string)
| WatchRecordUpdated (recordsUpdated : string).

#[global] Instance recordUpdatedFn_eq_dec : EqDecision recordUpdatedFn.
Proof. solve_decision. Defined.

(** The closure [function() { recordUpdated(self.wrapRecord(record)); }].
    Every evaluation of the function expression is a new object;
    [handler_id] is that identity. *)
Record handler := Handler {
  handler_id : nat;
  handler_record : nat;
  handler_recordUpdated : recordUpdatedFn
}.

#[global] Instance handler_eq_dec : EqDecision handler.
Proof. solve_decision. Defined.

(** The closure
    [function() { Ember.removeObserver(record, key, handler); }]. *)
Inductive removeFn :=
| RemoveObserver (record : nat) (key : string) (h : handler).

#[global] Instance removeFn_eq_dec : EqDecision removeFn.
Proof. solve_decision. Defined.

(** What [observeRecord] returns: the stub [function(){}] of the base
    class, or
    [function() { releaseMethods.forEach(function(fn) { fn(); }); }]
    over the array of [removeFn] closures it has just filled (nothing else
    holds that array, so the closure carries its contents). *)
Inductive recordRelease :=
| NoopRelease
| ObserveRelease (releaseMethods : list removeFn).

#[global] Instance recordRelease_eq_dec : EqDecision recordRelease.
Proof. solve_decision. Defined.

(** The array observer [{ didChange: contentDidChange, willChange: Ember.K }]
    of one [watchRecords] call. [contentDidChange] closes over that call's
    [releaseMethods] array (a location in the world, because the array keeps
    growing after the closure is built) and over the three callbacks. The
    array location is fresh per call, so it also serves as the identity of
    the observer. *)
Record arrayObserver := ArrayObserver {
  ao_releaseMethods : nat;
  ao_recordsAdded : string;
  ao_recordsUpdated : string;
  ao_recordsRemoved : string
}.

#[global] Instance arrayObserver_eq_dec : EqDecision arrayObserver.
Proof. solve_decision. Defined.

(** The [release] closure of one [watchRecords] call; it closes over
    [releaseMethods], [records] and [observer]. *)
Record watchRelease := WatchRelease {
  rel_releaseMethods : nat;
  rel_records : nat;
  rel_observer : arrayObserver
}.

#[global] Instance watchRelease_eq_dec : EqDecision watchRelease.
Proof. solve_decision. Defined.

(** The two functions [getRecords] (logging revision) passes to [then];
    both close over its local variable [records], a cell of the world. *)
Inductive thenFn :=
| GetRecordsFulfilled (var : nat)   (* function(values) { records = values; } *)
| GetRecordsRejected (var : nat).   (* function(error) { ...; records = Ember.A([]); } *)

Record thenEntry := ThenEntry {
  then_promise : nat;
  onFulfilled : option thenFn;
  onRejected : option thenFn
}.

Inductive outcome :=
| Fulfilled (values : nat)     (* the array the promise resolves with *)
| Rejected (error : value).

Record world := World {
  records : gmap nat model;                 (* the store's record objects *)
  observers : list (nat * string * handler);(* Ember observers: record, key, handler *)
  recordArrays : gmap nat (list nat);       (* arrays of records *)
  arrayObservers : list (nat * arrayObserver); (* didChange listeners: array, observer *)
  releaseArrays : gmap nat (list recordRelease); (* the local releaseMethods arrays *)
  releaseMethods : list watchRelease;       (* the adapter's releaseMethods *)
  variables : gmap nat nat;                 (* captured local variables holding an array *)
  promises : gmap nat string;               (* pending queries: promise, queried type *)
  thens : list thenEntry;                   (* callbacks registered with then *)
  unhandled : list (nat * value);           (* rejections nobody handled *)
  trace : list event;                       (* calls of the inspector's callbacks *)
  next : nat                                (* next fresh object identity *)
}.

Definition empty_world : world :=
  World ∅ [] ∅ [] ∅ [] ∅ ∅ [] [] [] 0%nat.

Definition with_records (f : gmap nat model → gmap nat model) (s : world) : world :=
  World (f (records s)) (observers s) (recordArrays s) (arrayObservers s)
        (releaseArrays s) (releaseMethods s) (variables s) (promises s)
        (thens s) (unhandled s) (trace s) (next s).

Definition with_observers
    (f : list (nat * string * handler) → list (nat * string * handler))
    (s : world) : world :=
  World (records s) (f (observers s)) (recordArrays s) (arrayObservers s)
        (releaseArrays s) (releaseMethods s) (variables s) (promises s)
        (thens s) (unhandled s) (trace s) (next s).

Definition with_recordArrays
    (f : gmap nat (list nat) → gmap nat (list nat)) (s : world) : world :=
  World (records s) (observers s) (f (recordArrays s)) (arrayObservers s)
        (releaseArrays s) (releaseMethods s) (variables s) (promises s)
        (thens s) (unhandled s) (trace s) (next s).

Definition with_arrayObservers
    (f : list (nat * arrayObserver) → list (nat * arrayObserver))
    (s : world) : world :=
  World (records s) (observers s) (recordArrays s) (f (arrayObservers s))
        (releaseArrays s) (releaseMethods s) (variables s) (promises s)
        (thens s) (unhandled s) (trace s) (next s).

Definition with_releaseArrays
    (f : gmap nat (list recordRelease) → gmap nat (list recordRelease))
    (s : world) : world :=
  World (records s) (observers s) (recordArrays s) (arrayObservers s)
        (f (releaseArrays s)) (releaseMethods s) (variables s) (promises s)
        (thens s) (unhandled s) (trace s) (next s).

Definition with_releaseMethods
    (f : list watchRelease → list watchRelease) (s : world) : world :=
  World (records s) (observers s) (recordArrays s) (arrayObservers s)
        (releaseArrays s) (f (releaseMethods s)) (variables s) (promises s)
        (thens s) (unhandled s) (trace s) (next s).

Definition with_variables (f : gmap nat nat → gmap nat nat) (s : world) : world :=
  World (records s) (observers s) (recordArrays s) (arrayObservers s)
        (releaseArrays s) (releaseMethods s) (f (variables s)) (promises s)
        (thens s) (unhandled s) (trace s) (next s).

Definition with_promises (f : gmap nat string → gmap nat string) (s : world) : world :=
  World (records s) (observers s) (recordArrays s) (arrayObservers s)
        (releaseArrays s) (releaseMethods s) (variables s) (f (promises s))
        (thens s) (unhandled s) (trace s) (next s).

Definition with_thens (f : list thenEntry → list thenEntry) (s : world) : world :=
  World (records s) (observers s) (recordArrays s) (arrayObservers s)
        (releaseArrays s) (releaseMethods s) (variables s) (promises s)
        (f (thens s)) (unhandled s) (trace s) (next s).

Definition with_unhandled
    (f : list (nat * value) → list (nat * value)) (s : world) : world :=
  World (records s) (observers s) (recordArrays s) (arrayObservers s)
        (releaseArrays s) (releaseMethods s) (variables s) (promises s)
        (thens s) (f (unhandled s)) (trace s) (next s).

Definition with_trace (f : list event → list event) (s : world) : world :=
  World (records s) (observers s) (recordArrays s) (arrayObservers s)
        (releaseArrays s) (releaseMethods s) (variables s) (promises s)
        (thens s) (unhandled s) (f (trace s)) (next s).

Definition with_next (f : nat → nat) (s : world) : world :=
  World (records s) (observers s) (recordArrays s) (arrayObservers s)
        (releaseArrays s) (releaseMethods s) (variables s) (promises s)
        (thens s) (unhandled s) (trace s) (f (next s)).

Arguments with_records _ _ /.
Arguments with_observers _ _ /.
Arguments with_recordArrays _ _ /.
Arguments with_arrayObservers _ _ /.
Arguments with_releaseArrays _ _ /.
Arguments with_releaseMethods _ _ /.
Arguments with_variables _ _ /.
Arguments with_promises _ _ /.
Arguments with_thens _ _ /.
Arguments with_unhandled _ _ /.
Arguments with_trace _ _ /.
Arguments with_next _ _ /.

(** ** State passing *)

Definition M (A : Type) : Type := world → A * world.

Definition ret {A} (a : A) : M A := λ s, (a, s).

Definition bind {A B} (m : M A) (k : A → M B) : M B :=
  λ s, let '(a, s') := m s in k a s'.

Notation "'do' x <~ m ; k" := (bind m (λ x, k))
  (at level 10, x name, m at level 100, k at level 200,
   format "'[v' 'do'  x  <~  m ; '/' k ']'").
Notation "'do_' m ; k" := (bind m (λ _, k))
  (at level 10, m at level 100, k at level 200,
   format "'[v' 'do_'  m ; '/' k ']'").

(** Lifts a world update to a command. *)
Definition modify (f : world → world) : M unit := λ s, (tt, f s).

(** Runs a command for its effect only. *)
Definition exec {A} (m : M A) (s : world) : world := (m s).2.

(** A fresh object identity. *)
Definition fresh : M nat := λ s, (next s, with_next S s).

(** Calls an inspector callback. *)
Definition emit (e : event) : M unit :=
  modify (with_trace (λ t, t ++ [e])).

(** [for each x of l], left to right, over a list that the body cannot
    change. *)
Fixpoint mapM {A B} (f : A → M B) (l : list A) : M (list B) :=
  match l with
  | [] => ret []
  | x :: l' => do y <~ f x; do ys <~ mapM f l'; ret (y :: ys)
  end.

(** [array.forEach(callback)] on an array that lives in the world. As in
    ECMAScript, the length is read once, before the first call; then for each
    index [k] below it, in order, the callback runs on the element found at
    [k] at that moment, and an index that no longer exists is skipped. The
    callback may therefore see the array it is iterating change. *)
Fixpoint forEach_from {A} (array : world → list A) (callback : A → world → world)
    (k remaining : nat) (s : world) : world :=
  match remaining with
  | O => s
  | S remaining' =>
      let s' := match array s !! k with
                | Some x => callback x s
                | None => s
                end in
      forEach_from array callback (S k) remaining' s'
  end.

Definition forEach {A} (array : world → list A) (callback : A → world → world)
    (s : world) : world :=
  forEach_from array callback 0 (length (array s)) s.

(** ** The Ember primitives the adapter calls *)

(** Removes the first occurrence of [x]. *)
Fixpoint remove_first {A} `{EqDecision A} (x : A) (l : list A) : list A :=
  match l with
  | [] => []
  | y :: l' => if decide (x = y) then l' else y :: remove_first x l'
  end.

(** [Ember.addObserver(record, key, handler)]: registers the listener unless
    the same function is already listening on that key of that record. *)
Definition addObserver (record : nat) (key : string) (h : handler) : world → world :=
  with_observers (λ obs,
    if decide ((record, key, h) ∈ obs) then obs else obs ++ [(record, key, h)]).

(** [Ember.removeObserver(record, key, handler)]: drops the listener when it
    is registered and silently does nothing otherwise. *)
Definition removeObserver (record : nat) (key : string) (h : handler) : world → world :=
  with_observers (remove_first (record, key, h)).

(** [array.addArrayObserver(self, observer)] and
    [array.removeArrayObserver(self, observer)], restricted to the
    [didChange] listener ([willChange] is [Ember.K], which does nothing). *)
Definition addArrayObserver (array : nat) (o : arrayObserver) : world → world :=
  with_arrayObservers (λ obs,
    if decide ((array, o) ∈ obs) then obs else obs ++ [(array, o)]).

Definition removeArrayObserver (array : nat) (o : arrayObserver) : world → world :=
  with_arrayObservers (remove_first (array, o)).

(** [self.releaseMethods.pushObject(release)]: appends. *)
Definition pushObject (release : watchRelease) : world → world :=
  with_releaseMethods (λ l, l ++ [release]).

(** [self.releaseMethods.removeObject(release)]: removes every occurrence;
    nothing happens when there is none. *)
Definition removeObject (release : watchRelease) : world → world :=
  with_releaseMethods (filter (λ r, r ≠ release)).

(** [Ember.A()]: a new, empty array of records. *)
Definition newRecordArray : M nat :=
  do a <~ fresh;
  do_ modify (with_recordArrays <[a := []]>);
  ret a.

(** [Ember.A()] for a local [releaseMethods] array. *)
Definition newReleaseArray : M nat :=
  do a <~ fresh;
  do_ modify (with_releaseArrays <[a := []]>);
  ret a.

Definition readRecordArray (array : nat) (s : world) : list nat :=
  default [] (recordArrays s !! array).

Definition readReleaseArray (array : nat) (s : world) : list recordRelease :=
  default [] (releaseArrays s !! array).

(** [releaseMethods.push(fn)]. *)
Definition pushRelease (array : nat) (fn : recordRelease) : world → world :=
  with_releaseArrays (λ h, <[array := default [] (h !! array) ++ [fn]]> h).

(** The current state of a record object. *)
Definition readRecord (record : nat) (s : world) : model :=
  default (Model [] ∅) (records s !! record).

(** [this.get('store').query(type)]: the store hands back a pending promise. *)
Definition query (type : string) : M nat :=
  do p <~ fresh;
  do_ modify (with_promises <[p := type]>);
  ret p.

(** [promise.then(onFulfilled, onRejected)]. *)
Definition then_ (p : nat) (f r : option thenFn) : M unit :=
  modify (with_thens (λ l, l ++ [ThenEntry p f r])).

(** ** Release closures *)

Definition call_removeFn (fn : removeFn) : world → world :=
  match fn with
  | RemoveObserver record key h => removeObserver record key h
  end.

(** Calling what [observeRecord] returned:
    [releaseMethods.forEach(function(fn) { fn(); })]. *)
Definition call_recordRelease (release : recordRelease) : world → world :=
  match release with
  | NoopRelease => λ s, s
  | ObserveRelease releaseMethods => forEach (λ _, releaseMethods) call_removeFn
  end.

(** Calling the [release] closure of [watchRecords]:
<<
    releaseMethods.forEach(function(fn) { fn(); });
    records.removeArrayObserver(self, observer);
    self.releaseMethods.removeObject(release);
>> *)
Definition call_watchRelease (release : watchRelease) (s : world) : world :=
  let s := forEach (readReleaseArray (rel_releaseMethods release))
                   call_recordRelease s in
  let s := removeArrayObserver (rel_records release) (rel_observer release) s in
  removeObject release s.

(** The [willDestroy] the class inherits from [Ember.DataAdapter], which it
    extends, and reaches through [this._super()]. It is the same loop over
    [this.releaseMethods] (the logging revision keeps its copy of it
    commented out under "USE Ember.DataAdapter DO NOT OVERIDE"), and
    [this.releaseMethods] is there, too, the adapter's own array. A revision
    that defines no [willDestroy] of its own runs this one alone. *)
Definition DataAdapter_willDestroy : world → world :=
  forEach releaseMethods call_watchRelease.

(** [willDestroy] of the revision that overrides it:
<<
    this._super();
    this.releaseMethods.forEach(function(fn) { fn(); });
>>
    The inherited loop runs first, then the loop written here, both over the
    adapter's own [releaseMethods], the array every [release] removes itself
    from. *)
Definition willDestroy (s : world) : world :=
  let s := DataAdapter_willDestroy s in
  forEach releaseMethods call_watchRelease s.

(** ** Promise settlement (the store's side) *)

Definition run_thenFn (fn : thenFn) (o : outcome) : M unit :=
  match fn, o with
  | GetRecordsFulfilled var, Fulfilled values =>
      modify (with_variables <[var := values]>)
  | GetRecordsRejected var, Rejected _ =>
      do a <~ newRecordArray;
      modify (with_variables <[var := a]>)
  | _, _ => ret tt
  end.

(** The promise [p] settles: every callback pair registered on it runs its
    matching half, in registration order; a rejection that meets no
    [onRejected] is left unhandled. *)
Definition settle_entry (p : nat) (o : outcome) (s : world) (t : thenEntry) : world :=
  match o with
  | Fulfilled _ =>
      match onFulfilled t with
      | Some fn => exec (run_thenFn fn o) s
      | None => s
      end
  | Rejected e =>
      match onRejected t with
      | Some fn => exec (run_thenFn fn o) s
      | None => with_unhandled (λ l, l ++ [(p, e)]) s
      end
  end.

Definition settle (p : nat) (o : outcome) (s : world) : world :=
  let mine := filter (λ t, then_promise t = p) (thens s) in
  let s := with_thens (filter (λ t, then_promise t ≠ p)) s in
  let s := with_promises (delete p) s in
  foldl (settle_entry p o) s mine.

(** ** The adapter class

    [self.method(...)] dispatches to the most derived definition; a revision
    of the adapter is the record of the methods it ends up with. *)

Record adapter := Adapter {
  self_attributeLimit : Z;
  self_getRecords : string → M nat;
  self_getRecordColumnValues : model → gmap string value;
  self_getRecordKeywords : model → list value;
  self_getRecordFilterValues : model → gmap string value;
  self_getRecordColor : model → value;
  self_observeRecord : nat → recordUpdatedFn → M recordRelease
}.

(** [observeRecord], identical in every revision that implements it but for
    the initial contents [keys0] of [keysToObserve]:
<<
    var releaseMethods = Ember.A(), self = this, keysToObserve = Ember.A(keys0);
    record.eachAttribute(function(key) { keysToObserve.push(key); });
    keysToObserve.forEach(function(key) {
      var handler = function() { recordUpdated(self.wrapRecord(record)); };
      Ember.addObserver(record, key, handler);
      releaseMethods.push(function() {
        Ember.removeObserver(record, key, handler);
      });
    });
    var release = function() { releaseMethods.forEach(function(fn) { fn(); }); };
    return release;
>> *)
Definition observeKey (record : nat) (recordUpdated : recordUpdatedFn)
    (key : string) : M removeFn :=
  do id <~ fresh;
  let handler := Handler id record recordUpdated in
  do_ modify (addObserver record key handler);
  ret (RemoveObserver record key handler).

Definition observeRecord_from (keys0 : list string) (record : nat)
    (recordUpdated : recordUpdatedFn) : M recordRelease :=
  do keysToObserve <~
     (λ s, (eachAttribute (readRecord record s) (λ key keys, keys ++ [key]) keys0, s));
  do releaseMethods <~ mapM (observeKey record recordUpdated) keysToObserve;
  ret (ObserveRelease releaseMethods).

(** [recordUpdated(w)]: the inspector's callback is called with [w], or,
    through the closure of [watchRecords], [recordsUpdated] with [[w]]. *)
Definition recordUpdated_call (recordUpdated : recordUpdatedFn) (w : wrapped)
    : event :=
  match recordUpdated with
  | ConsumerRecordUpdated f => Call1 f w
  | WatchRecordUpdated recordsUpdated => CallBatch recordsUpdated [w]
  end.

Section DataAdapter.
Variable self : adapter.

(** [wrapRecord]:
<<
    var recordToSend = { object: record };
    recordToSend.columnValues = this.getRecordColumnValues(record);
    recordToSend.searchKeywords = this.getRecordKeywords(record);
    recordToSend.filterValues = this.getRecordFilterValues(record);
    recordToSend.color = this.getRecordColor(record);
    return recordToSend;
>> *)
Definition wrapRecord (record : nat) : M wrapped :=
  λ s, let r := readRecord record s in
       (Wrapped record
          (self_getRecordColumnValues self r)
          (self_getRecordKeywords self r)
          (self_getRecordFilterValues self r)
          (self_getRecordColor self r), s).

(** Running a [handler]: [recordUpdated(self.wrapRecord(record))]. *)
Definition call_handler (h : handler) : M unit :=
  do w <~ wrapRecord (handler_record h);
  emit (recordUpdated_call (handler_recordUpdated h) w).

(** [Ember.set(record, key, v)] (the store's side): when the value changes,
    the property is written and every observer of that key of that record
    runs once. The order among them is Ember's business; here they run in
    the order of the observer table. *)
Definition Ember_set (record : nat) (key : string) (v : value) (s : world) : world :=
  let r := readRecord record s in
  if decide (get r key = v) then s
  else
    let s := with_records
               <[record := Model (attributes r) (<[key := v]> (properties r))]> s in
    let listeners :=
      filter (λ o, o.1.1 = record ∧ o.1.2 = key) (observers s) in
    foldl (λ s o, exec (call_handler o.2) s) s listeners.

(** The body of the [for] loop of [contentDidChange] at index [i]:
<<
    var record = array.objectAt(i);
    var wrapped = self.wrapRecord(record);
    releaseMethods.push(self.observeRecord(record, recordUpdated));
    recordsAdded([wrapped]);
>>
    ([objectAt] cannot miss here: the observer runs after the insertion.) *)
Definition contentDidChange_at (o : arrayObserver) (array i : nat) : M unit :=
  λ s, match readRecordArray array s !! i with
       | None => (tt, s)
       | Some record =>
           (do wrapped <~ wrapRecord record;
            do fn <~ self_observeRecord self record
                       (WatchRecordUpdated (ao_recordsUpdated o));
            do_ modify (pushRelease (ao_releaseMethods o) fn);
            emit (CallBatch (ao_recordsAdded o) [wrapped])) s
       end.

(** [contentDidChange(array, idx, removedCount, addedCount)]. *)
Definition contentDidChange (o : arrayObserver)
    (array idx removedCount addedCount : nat) : M unit :=
  do_ mapM (contentDidChange_at o array) (seq idx addedCount);
  if decide (removedCount = 0%nat) then ret tt
  else emit (CallRemoved (ao_recordsRemoved o) idx removedCount).

(** The store replaces [removedCount] members of [array] at [idx] by
    [added]; afterwards the [didChange] of each array observer of that array
    runs. *)
Definition arrayReplace (array idx removedCount : nat) (added : list nat)
    (s : world) : world :=
  let l := readRecordArray array s in
  let s := with_recordArrays
             <[array := take idx l ++ added ++ drop (idx + removedCount) l]> s in
  let listeners := filter (λ ao, ao.1 = array) (arrayObservers s) in
  foldl (λ s ao,
           exec (contentDidChange ao.2 array idx removedCount (length added)) s)
        s listeners.

(** [watchRecords]:
<<
    var self = this, releaseMethods = Ember.A(),
        records = this.getRecords(type), release;
    var recordUpdated = function(updatedRecord) { recordsUpdated([updatedRecord]); };
    var recordsToSend = records.map(function(record) {
      releaseMethods.push(self.observeRecord(record, recordUpdated));
      return self.wrapRecord(record);
    });
    var contentDidChange = ...;
    var observer = { didChange: contentDidChange, willChange: Ember.K };
    records.addArrayObserver(self, observer);
    release = function() { ... };
    recordsAdded(recordsToSend);
    this.releaseMethods.pushObject(release);
    return release;
>> *)
Definition watchRecords (type : string)
    (recordsAdded recordsUpdated recordsRemoved : string) : M watchRelease :=
  do releaseMethods <~ newReleaseArray;
  do records <~ self_getRecords self type;
  let recordUpdated := WatchRecordUpdated recordsUpdated in
  do members <~ (λ s, (readRecordArray records s, s));
  do recordsToSend <~
     mapM (λ record,
             do fn <~ self_observeRecord self record recordUpdated;
             do_ modify (pushRelease releaseMethods fn);
             wrapRecord record) members;
  let observer :=
    ArrayObserver releaseMethods recordsAdded recordsUpdated recordsRemoved in
  do_ modify (addArrayObserver records observer);
  let release := WatchRelease releaseMethods records observer in
  do_ emit (CallBatch recordsAdded recordsToSend);
  do_ modify (pushObject release);
  ret release.

End DataAdapter.

(** ** The revisions *)

Module BaseAdapter.
(** The data-adapter base class: [attributeLimit: 3], and every hook a stub
    ([getRecords] returns [Ember.A()], [observeRecord] returns
    [function(){}], [getRecordColor] returns [null], ...). *)
Definition attributeLimit : Z := 3.
Definition getRecords (type : string) : M nat := newRecordArray.
Definition getRecordColumnValues (record : model) : gmap string value := ∅.
Definition getRecordKeywords (record : model) : list value := [].
Definition getRecordFilterValues (record : model) : gmap string value := ∅.
Definition getRecordColor (record : model) : value := VNull.
Definition observeRecord (record : nat) (recordUpdated : recordUpdatedFn)
    : M recordRelease := ret NoopRelease.
Definition self : adapter :=
  Adapter attributeLimit getRecords getRecordColumnValues getRecordKeywords
          getRecordFilterValues getRecordColor observeRecord.
End BaseAdapter.

Module LoggingAdapter.
(** The revision that logs through [_logThis] and resolves the query promise
    inside [getRecords]. *)

(** [getRecords]:
<<
    var records = Ember.A([]), recordsPromised = this.get('store').query(type);
    recordsPromised.then(
      function(values) { records = values; },
      function(error) { console.log(...); records = Ember.A([]); });
    return records;
>>
    The two callbacks assign to the variable [records]; [return records]
    reads it when [getRecords] returns, and [then] never runs a callback
    before that. *)
Definition getRecords (type : string) : M nat :=
  do a <~ newRecordArray;
  do records <~ fresh;
  do_ modify (with_variables <[records := a]>);
  do recordsPromised <~ query type;
  do_ then_ recordsPromised (Some (GetRecordsFulfilled records))
                            (Some (GetRecordsRejected records));
  λ s, (default a (variables s !! records), s).

(** [getRecordColor]:
<<
    var color = 'black';
    if (record.get('isLoaded') === false) { color = 'grey'; return color; }
    if (record.get('isNew')) { color = 'green'; }
    else if (record.get('isProxy')) { color = 'black'; }
    else if (record.get('isNew')) { color = 'blue'; }
    else if (record.get('isDeleted')) { color = 'red'; }
    return color;
>> *)
Definition getRecordColor (record : model) : value :=
  let color := "black" in
  if strict_eq (get record "isLoaded") (VBool false)
  then (let color := "grey" in VStr color)
  else
    let color :=
      if truthy (get record "isNew") then "green"
      else if truthy (get record "isProxy") then "black"
      else if truthy (get record "isNew") then "blue"
      else if truthy (get record "isDeleted") then "red"
      else color in
    VStr color.

(** [keysToObserve] before the attributes are pushed onto it. *)
Definition keysToObserve : list string := ["id"; "isNew"; "isDirty"].
Definition observeRecord := observeRecord_from keysToObserve.

Definition self : adapter :=
  Adapter BaseAdapter.attributeLimit getRecords
          (getRecordColumnValues BaseAdapter.attributeLimit) getRecordKeywords
          getRecordFilterValues getRecordColor observeRecord.
End LoggingAdapter.

Module DebugAdapter.
(** lib/debug/debug_adapter.js. *)

(** [getRecordColor]:
<<
    var color = 'black';
    if (record.get('isNew')) { color = 'green'; }
    else if (record.get('isProxy')) { color = 'blue'; }
    else if (record.get('isPromise')) { color = 'red'; }
    return color;
>> *)
Definition getRecordColor (record : model) : value :=
  let color := "black" in
  let color :=
    if truthy (get record "isNew") then "green"
    else if truthy (get record "isProxy") then "blue"
    else if truthy (get record "isPromise") then "red"
    else color in
  VStr color.

Definition keysToObserve : list string :=
  ["id"; "isNew"; "isProxy"; "isPromise"; "isLoaded"; "isDeleted"].
Definition observeRecord := observeRecord_from keysToObserve.

(** [getRecords] returns [this.get('session').query(type)] as it is; what
    the session returns is not part of these sources, so it is a parameter
    of the revision. *)
Definition self (getRecords : string → M nat) : adapter :=
  Adapter BaseAdapter.attributeLimit getRecords
          (getRecordColumnValues BaseAdapter.attributeLimit) getRecordKeywords
          getRecordFilterValues getRecordColor observeRecord.
End DebugAdapter.

Module ConsoleAdapter.
(** The two revisions that log with [console.log]: as [DebugAdapter], except
    that only [id] and the attributes are observed (the status keys are
    commented out). *)
Definition keysToObserve : list string := ["id"].
Definition observeRecord := observeRecord_from keysToObserve.
End ConsoleAdapter.

(** The colour decision as the design document words it: grey when the
    record is not loaded, then green for new, black for a proxy, red for
    deleted, black otherwise. *)
Definition color_by_priority (record : model) : value :=
  if strict_eq (get record "isLoaded") (VBool false) then VStr "grey"
  else if truthy (get record "isNew") then VStr "green"
  else if truthy (get record "isProxy") then VStr "black"
  else if truthy (get record "isDeleted") then VStr "red"
  else VStr "black".

(** ** A small store to run the adapter on

    One [Post] record, object [0], with the attributes [title] and [body],
    held by the array [1]. *)
Definition post : model :=
  Model ["title"; "body"]
    (<["id" := VNum 1]> (<["title" := VStr "A"]> (<["body" := VStr "B"]>
     (<["isLoaded" := VBool true]> (<["isNew" := VBool false]> ∅))))).

Definition sample_store : world :=
  with_records <[0%nat := post]>
    (with_recordArrays <[1%nat := [0%nat]]> (with_next (λ _, 2%nat) empty_world)).

(** The promise [getRecords] of the logging revision obtains from the store
    when [watchRecords] starts in world [s]: [watchRecords] first takes one
    fresh identity for its [releaseMethods] array, then [getRecords] takes
    one for its array, one for its variable and one for the promise. *)
Definition watch_promise (s : world) : nat := (3 + next s)%nat.

(** "Nothing is ever sent for a subscription released before its query
    resolved": subscribe in [s], call the disposer, let the query resolve
    with the array [values]; the trace is the one of [s]. *)
Definition silent_after_early_release (s : world)
    (type recordsAdded recordsUpdated recordsRemoved : string)
    (values : nat) : Prop :=
  let w := watchRecords LoggingAdapter.self type recordsAdded recordsUpdated
             recordsRemoved s in
  trace (settle (watch_promise s) (Fulfilled values)
           (call_watchRelease w.1 w.2))
  = trace s.

(** ** The filter catalogue, columns and type discovery *)

(** [getFilters], the same in every revision that implements it (the base
    class returns an empty array):
<<
    return [ { name: 'isPromise', desc: 'Promise' }, { name: 'isProxy', desc: 'Proxy' },
             { name: 'isNew', desc: 'New' }, { name: 'isDeleted', desc: 'Deleted' },
             { name: 'isLoaded', desc: 'Loaded' } ];
>> *)
Record filterEntry := Filter { filter_name : string; filter_desc : string }.

Definition getFilters : list filterEntry :=
  [ Filter "isPromise" "Promise"; Filter "isProxy" "Proxy"; Filter "isNew" "New";
    Filter "isDeleted" "Deleted"; Filter "isLoaded" "Loaded" ].

(** A model class as the adapter sees it: what [toString()] prints, the
    declared attribute names in declaration order, and the declared
    relationships with their kind. *)
Inductive relationshipKind := belongsTo | hasMany.

#[global] Instance relationshipKind_eq_dec : EqDecision relationshipKind.
Proof. solve_decision. Defined.

Record modelType := ModelType {
  type_toString : string;
  type_attributes : list string;
  type_relationships : list (string * relationshipKind)
}.

Record column := Column { column_name : string; column_desc : string }.

(** [str.replace('_', ' ')] with a string pattern: only the first
    underscore is replaced. *)
Fixpoint replace_underscore (str : string) : string :=
  match str with
  | EmptyString => EmptyString
  | String c rest =>
      if bool_decide (String c "" = "_") then String.append " " rest
      else String c (replace_underscore rest)
  end.

Section Columns.
(** [Ember.String.capitalize] and [Ember.String.underscore]. *)
Variables capitalize underscore : string → string.

(** [columnsForType]:
<<
    var columns = [{ name: 'id', desc: 'Id' }], count = 0, self = this;
    Ember.A(get(type, 'attributes')).forEach(function(name, meta) {
        if (count++ > self.attributeLimit) { return false; }
        var desc = capitalize(underscore(name).replace('_', ' '));
        columns.push({ name: name, desc: desc });
    });
    return columns;
>> *)
Definition columns_step (attributeLimit : Z) (st : Z * list column)
    (name : string) : Z * list column :=
  let '(count, columns) := st in
  if attributeLimit <? count
  then (count + 1, columns)
  else
    let desc := capitalize (replace_underscore (underscore name)) in
    (count + 1, columns ++ [Column name desc]).

Definition columnsForType (attributeLimit : Z) (type : modelType) : list column :=
  (foldl (columns_step attributeLimit) (0, [Column "id" "Id"])
     (type_attributes type)).2.

End Columns.

(** [wrapModelType]:
<<
    var release, records = this.getRecords(type), typeToSend, self = this;
    typeToSend = {
      name: type.toString(),
      count: Ember.get(records, 'length'),
      columns: this.columnsForType(type),
      object: type
    };
    return typeToSend;
>>
    [getRecords] is asked with the type (named by what [toString()] prints,
    as in [watchRecords]); [columnsForType] is the revision's. *)
Record wrappedType := WrappedType {
  wrapped_name : string;
  wrapped_count : nat;
  wrapped_columns : list column;
  wrapped_object : modelType
}.

Definition wrapModelType (self : adapter)
    (columnsForType : modelType → list column) (type : modelType)
    : M wrappedType :=
  do records <~ self_getRecords self (type_toString type);
  do count <~ (λ s, (length (readRecordArray records s), s));
  ret (WrappedType (type_toString type) count (columnsForType type) type).

(** [_debugInfo] of the model class:
<<
    var attributes = ['id'],
        relationships = { belongsTo: [], hasMany: [] },
        expensiveProperties = [];
    this.eachAttribute(function(name, meta) { attributes.push(name); }, this);
    this.eachRelationship(function(name, relationship) {
      relationships[relationship.kind].push(name);
      expensiveProperties.push(name);
    });
    var groups = [
      { name: 'Attributes', properties: attributes, expand: true },
      { name: 'Belongs To', properties: relationships.belongsTo, expand: true },
      { name: 'Has Many', properties: relationships.hasMany, expand: true },
      { name: 'Flags', properties: ['isNew', 'isProxy', 'isPromise', 'isLoaded', 'isDeleted'] } ];
    return { propertyInfo: { includeOtherProperties: true, groups: groups,
                             expensiveProperties: expensiveProperties } };
>> *)
Record propertyGroup := PropertyGroup {
  group_name : string;
  group_properties : list string;
  group_expand : option bool       (* [None]: the key is absent *)
}.

Record propertyInfo := PropertyInfo {
  includeOtherProperties : bool;
  groups : list propertyGroup;
  expensiveProperties : list string
}.

(** The loop state of [eachRelationship]: the two arrays of
    [relationships] and [expensiveProperties]. *)
Definition relationship_step
    (st : list string * list string * list string)
    (r : string * relationshipKind) : list string * list string * list string :=
  let '(belongs, many, expensive) := st in
  let '(name, kind) := r in
  match kind with
  | belongsTo => (belongs ++ [name], many, expensive ++ [name])
  | hasMany => (belongs, many ++ [name], expensive ++ [name])
  end.

Definition _debugInfo (this : modelType) : propertyInfo :=
  let attributes :=
    foldl (λ attributes name, attributes ++ [name]) ["id"] (type_attributes this) in
  let '(belongs, many, expensive) :=
    foldl relationship_step ([], [], []) (type_relationships this) in
  PropertyInfo true
    [ PropertyGroup "Attributes" attributes (Some true);
      PropertyGroup "Belongs To" belongs (Some true);
      PropertyGroup "Has Many" many (Some true);
      PropertyGroup "Flags"
        ["isNew"; "isProxy"; "isPromise"; "isLoaded"; "isDeleted"] None ]
    expensive.

Module TypeDiscovery.
Section Classes.
(** The values found in namespaces, the class [Ep.Model] among them, and
    [Ep.Model.detect] (Ember's subclass test). *)
Context {klass : Type} `{EqDecision klass}.
Variable EpModel : klass.
Variable EpModel_detect : klass → bool.

(** lib/debug/debug_adapter.js:
    [return klass !== Ep.Model && Ep.Model.detect(klass);] *)
Definition DebugAdapter_detect (k : klass) : bool :=
  bool_decide (k ≠ EpModel) && EpModel_detect k.

(** The logging revision:
<<
    var isDetected = false; var isModel = false; var isModelDetect = false;
    if (klass === Ep.Model) { isModel = true; }
    if ( Ep.Model.detect(klass) ) { isModelDetect = true; }
    if (!isModel && isModelDetect ) { ...; isDetected = true; }
    return isDetected;
>> *)
Definition LoggingAdapter_detect (k : klass) : bool :=
  let isDetected := false in
  let isModel := false in
  let isModelDetect := false in
  let isModel := if bool_decide (k = EpModel) then true else isModel in
  let isModelDetect := if EpModel_detect k then true else isModelDetect in
  let isDetected :=
    if negb isModel && isModelDetect then true else isDetected in
  isDetected.

(** The base class: [return false;] *)
Definition BaseAdapter_detect (k : klass) : bool := false.

(** A namespace, as [for (var key in namespace)] enumerates it: each
    property with its value and whether [hasOwnProperty(key)] holds. *)
Definition namespace : Type := list (string * klass * bool).

(** [getModelTypes]:
<<
    var namespaces = Ember.A(Ember.Namespace.NAMESPACES), types = Ember.A(), self = this;
    namespaces.forEach(function(namespace) {
      for (var key in namespace) {
        if (!namespace.hasOwnProperty(key)) { continue; }
        var klass = namespace[key];
        if (self.detect(klass)) { types.push(klass); }
      }
    });
    return types;
>> *)
Definition getModelTypes (detect : klass → bool) (namespaces : list namespace)
    : list klass :=
  foldl (λ types ns,
           foldl (λ types property,
                    let '(key, k, own) := property in
                    if negb own then types
                    else if detect k then types ++ [k] else types)
                 types ns)
        [] namespaces.

End Classes.
End TypeDiscovery.

(** ** Vocabulary of the statements *)

(** [columnValues[key] = get(record, key)] for each key of a list. *)
Definition fill_columns (record : model) (m : gmap string value)
    (keys : list string) : gmap string value :=
  foldl (λ m key, <[key := get record key]> m) m keys.

Definition observer_of (fn : removeFn) : nat * string * handler :=
  match fn with RemoveObserver record key h => (record, key, h) end.

(** The observer table after the closures [fns] have run, in order. *)
Definition drop_observers (fns : list removeFn)
    (obs : list (nat * string * handler)) : list (nat * string * handler) :=
  foldl (λ obs fn, remove_first (observer_of fn) obs) obs fns.

Definition release_targets (release : recordRelease) : list removeFn :=
  match release with
  | NoopRelease => []
  | ObserveRelease releaseMethods => releaseMethods
  end.

(** Every [removeFn] reachable from the [releaseMethods] array of a
    [watchRecords] call, in the order [release] runs them. *)
Definition watch_targets (release : watchRelease) (s : world) : list removeFn :=
  concat (release_targets <$> readReleaseArray (rel_releaseMethods release) s).

(** Handler identities already in use lie below the next fresh one. *)
Definition fresh_handlers (s : world) : Prop :=
  ∀ o, o ∈ observers s → (handler_id o.2 < next s)%nat.

(** The observers [observeRecord] adds for [keys], starting from identity
    [n]: one per key, each with a handler of its own. *)
Definition new_observers (record : nat) (recordUpdated : recordUpdatedFn)
    (n : nat) (keys : list string) : list (nat * string * handler) :=
  imap (λ i key, (record, key, Handler (n + i) record recordUpdated)) keys.

Definition new_removeFns (record : nat) (recordUpdated : recordUpdatedFn)
    (n : nat) (keys : list string) : list removeFn :=
  imap (λ i key, RemoveObserver record key (Handler (n + i) record recordUpdated))
       keys.

(** The event a listener produces when it runs in world [s]. *)
Definition listener_event (self : adapter) (s : world) (o : nat * string * handler) : event :=
  recordUpdated_call (handler_recordUpdated o.2)
    (wrapRecord self (handler_record o.2) s).1.

(** The entries at the odd positions of a list (the second, the fourth,
    ...). *)
Fixpoint skipped {A} (l : list A) : list A :=
  match l with
  | _ :: y :: l' => y :: skipped l'
  | _ => []
  end.

(** What a [forEach] whose callback removes the visited entry does to the
    array it iterates: [remaining] visits starting at index [k]. *)
Fixpoint sweep {A} `{EqDecision A} (k remaining : nat) (l : list A) : list A :=
  match remaining with
  | O => l
  | S remaining' =>
      sweep (S k) remaining'
        (match l !! k with
         | Some x => filter (λ y, y ≠ x) l
         | None => l
         end)
  end.

(** The subscription [release] is live in [s]: next to the observers
    [obs0] that were there before it, the observer table holds exactly the
    observers its [releaseMethods] array can remove, its array observer is
    the only one on the array it watches, handler identities are fresh and
    no observer is registered twice. *)
Definition watching (obs0 : list (nat * string * handler))
    (release : watchRelease) (s : world) : Prop :=
  fresh_handlers s
  ∧ NoDup (observers s)
  ∧ observers s = obs0 ++ (observer_of <$> watch_targets release s)
  ∧ filter (λ ao, ao.1 = rel_records release) (arrayObservers s)
    = [(rel_records release, rel_observer release)]
  ∧ ao_releaseMethods (rel_observer release) = rel_releaseMethods release.

(** The records the observers spawned for the inserted records [rs] point
    to: each record once per observed key ([keys0] and its attributes). *)
Definition spawned_for (keys0 : list string) (s : world) (rs : list nat)
    : list nat :=
  rs ≫= (λ r, replicate (length keys0 + length (attributes (readRecord r s))) r).

(** What a run of rounds over the records [rs], found at the indices from
    [idx] on, adds to the world. *)
Definition grown (self : adapter) (keys0 : list string) (o : arrayObserver) (rs : list nat) (s s' : world) : Prop :=
  fresh_handlers s'
  ∧ records s' = records s
  ∧ recordArrays s' = recordArrays s
  ∧ arrayObservers s' = arrayObservers s
  ∧ releaseMethods s' = releaseMethods s
  ∧ trace s'
    = trace s
      ++ ((λ r, CallBatch (ao_recordsAdded o) [(wrapRecord self r s).1]) <$> rs)
  ∧ ∃ fns : list recordRelease,
      readReleaseArray (ao_releaseMethods o) s'
      = readReleaseArray (ao_releaseMethods o) s ++ fns
      ∧ observers s'
        = observers s ++ (observer_of <$> concat (release_targets <$> fns))
      ∧ (λ o : nat * string * handler, o.1.1)
          <$> (observer_of <$> concat (release_targets <$> fns))
        = spawned_for keys0 s rs
      ∧ Forall (λ o : nat * string * handler, (next s ≤ handler_id o.2)%nat)
          (observer_of <$> concat (release_targets <$> fns))
      ∧ NoDup (observer_of <$> concat (release_targets <$> fns)).

(** * Properties *)

(** Applies the field updates of a world and reduces its projections. *)
Ltac world_simpl :=
  cbn [with_records with_observers with_recordArrays with_arrayObservers
       with_releaseArrays with_releaseMethods with_variables with_promises
       with_thens with_unhandled with_trace with_next
       records observers recordArrays arrayObservers releaseArrays
       releaseMethods variables promises thens unhandled trace next fst snd].


(** ** Generic facts about the loops *)

Lemma foldl_push {A} (init l : list A) :
  foldl (λ acc x, acc ++ [x]) init l = init ++ l.
Proof.
  revert init. induction l as [|x l IH]; intros init; simpl.
  - by rewrite app_nil_r.
  - rewrite IH. by rewrite <- app_assoc.
Qed.

Lemma foldl_push_map {A B} (f : A → B) (init : list B) (l : list A) :
  foldl (λ acc x, acc ++ [f x]) init l = init ++ map f l.
Proof.
  revert init. induction l as [|x l IH]; intros init; simpl.
  - by rewrite app_nil_r.
  - rewrite IH. by rewrite <- app_assoc.
Qed.

(** ** The record projector *)

Lemma getRecordKeywords_eq (record : model) :
  getRecordKeywords record
  = get record "id" :: map (get record) (attributes record).
Proof.
  unfold getRecordKeywords, eachAttribute.
  rewrite foldl_push, foldl_push_map. reflexivity.
Qed.

(** C8. The search keywords of a record are the value of [id] followed by the
    current value of every declared attribute, in declaration order: one
    entry for [id] and exactly one per declared attribute. *)
Theorem getRecordKeywords_schema_order (record : model) :
  getRecordKeywords record
  = get record "id" :: map (get record) (attributes record)
  ∧ length (getRecordKeywords record) = S (length (attributes record)).
Proof.
  rewrite getRecordKeywords_eq. split; [reflexivity|].
  simpl. by rewrite length_map.
Qed.

(** C10. Whatever the attribute schema (the empty one included), the first
    search keyword is the value of the record's [id]. *)
Theorem getRecordKeywords_id_first (record : model) :
  head (getRecordKeywords record) = Some (get record "id").
Proof. by rewrite getRecordKeywords_eq. Qed.

(** C4. In the logging revision, the colour of every record follows the
    priority order grey (when [isLoaded] is [false]), green (new), black
    (proxy), red (deleted), black; the second test of [isNew] in the source
    is dead, so new wins over deleted. *)
Theorem getRecordColor_priority (record : model) :
  LoggingAdapter.getRecordColor record = color_by_priority record.
Proof.
  unfold LoggingAdapter.getRecordColor, color_by_priority.
  destruct (strict_eq (get record "isLoaded") (VBool false)); [reflexivity|].
  destruct (truthy (get record "isNew")); [reflexivity|].
  destruct (truthy (get record "isProxy")); [reflexivity|].
  destruct (truthy (get record "isDeleted")); reflexivity.
Qed.

(** lib/debug/debug_adapter.js has an older, shorter decision: no grey, blue
    for a proxy, red for a promise, and [isDeleted] is not consulted. *)
Lemma DebugAdapter_getRecordColor_eq (record : model) :
  DebugAdapter.getRecordColor record
  = if truthy (get record "isNew") then VStr "green"
    else if truthy (get record "isProxy") then VStr "blue"
    else if truthy (get record "isPromise") then VStr "red"
    else VStr "black".
Proof.
  unfold DebugAdapter.getRecordColor.
  destruct (truthy (get record "isNew")); [reflexivity|].
  destruct (truthy (get record "isProxy")); [reflexivity|].
  destruct (truthy (get record "isPromise")); reflexivity.
Qed.

(** C9. [getRecordColor] of lib/debug/debug_adapter.js returns, for every
    record, a string of the palette black, green, blue, red, and it is black
    when none of the tested flags holds. *)
Theorem getRecordColor_total (record : model) :
  ∃ c : string,
    DebugAdapter.getRecordColor record = VStr c
    ∧ c ∈ ["black"; "green"; "blue"; "red"]
    ∧ (truthy (get record "isNew") = false →
       truthy (get record "isProxy") = false →
       truthy (get record "isPromise") = false → c = "black").
Proof.
  rewrite DebugAdapter_getRecordColor_eq.
  destruct (truthy (get record "isNew")) eqn:Hnew.
  { exists "green". split; [reflexivity|]. split; [set_solver | discriminate]. }
  destruct (truthy (get record "isProxy")) eqn:Hproxy.
  { exists "blue". split; [reflexivity|]. split; [set_solver | discriminate]. }
  destruct (truthy (get record "isPromise")) eqn:Hpromise.
  { exists "red". split; [reflexivity|]. split; [set_solver | discriminate]. }
  exists "black". split; [reflexivity|]. split; [set_solver | done].
Qed.

Lemma getRecordColor_total_witness :
  ∃ c : string,
    DebugAdapter.getRecordColor (Model [] ∅) = VStr c
    ∧ c ∈ ["black"; "green"; "blue"; "red"] ∧ c = "black".
Proof.
  destruct (getRecordColor_total (Model [] ∅)) as (c & Hc & Hin & Hblack).
  exists c. split; [exact Hc|]. split; [exact Hin|].
  apply Hblack; reflexivity.
Defined.

(** The worked example of the design document: a loaded, clean [Post] with
    [title] and [body] under [attributeLimit = 3]. *)
Example post_columnValues :
  getRecordColumnValues BaseAdapter.attributeLimit post
  = <["body" := VStr "B"]> (<["title" := VStr "A"]> {[ "id" := VNum 1 ]}).
Proof. reflexivity. Qed.

Example post_color : LoggingAdapter.getRecordColor post = VStr "black".
Proof. reflexivity. Qed.

Example deleted_post_color :
  LoggingAdapter.getRecordColor
    (Model (attributes post) (<["isDeleted" := VBool true]> (properties post)))
  = VStr "red".
Proof. reflexivity. Qed.

Example new_and_deleted_color :
  LoggingAdapter.getRecordColor
    (Model []
       (<["isLoaded" := VBool true]> (<["isNew" := VBool true]>
        (<["isDeleted" := VBool true]> ∅))))
  = VStr "green".
Proof. reflexivity. Qed.

(** Not loaded: grey in the logging revision, black in
    lib/debug/debug_adapter.js, which has no such test. *)
Example unloaded_color :
  LoggingAdapter.getRecordColor (Model [] {[ "isLoaded" := VBool false ]})
  = VStr "grey"
  ∧ DebugAdapter.getRecordColor (Model [] {[ "isLoaded" := VBool false ]})
    = VStr "black".
Proof. split; reflexivity. Qed.

(** *** The column cap *)

(** The guard [count++ > attributeLimit] lets the attributes at positions
    [0 .. attributeLimit] through: starting from [count], the next
    [attributeLimit + 1 - count] attributes are copied and the rest only
    counted. *)
Lemma columnValues_loop (limit : Z) (record : model) (keys : list string) :
  ∀ (count : Z) (m : gmap string value),
    foldl (λ acc key, columnValues_step limit record key acc) (count, m) keys
    = (count + Z.of_nat (length keys),
       fill_columns record m (take (Z.to_nat (limit + 1 - count)) keys)).
Proof.
  induction keys as [|key keys IH]; intros count m.
  - simpl. rewrite take_nil. f_equal. lia.
  - cbn [foldl columnValues_step]. destruct (limit <? count) eqn:Hcmp.
    + apply Z.ltb_lt in Hcmp. rewrite IH.
      replace (Z.to_nat (limit + 1 - (count + 1))) with 0%nat by lia.
      replace (Z.to_nat (limit + 1 - count)) with 0%nat by lia.
      simpl. f_equal. lia.
    + apply Z.ltb_ge in Hcmp. rewrite IH.
      replace (Z.to_nat (limit + 1 - count))
        with (S (Z.to_nat (limit + 1 - (count + 1)))) by lia.
      simpl. f_equal. lia.
Qed.

Lemma getRecordColumnValues_eq (limit : Z) (record : model) :
  getRecordColumnValues limit record
  = fill_columns record {[ "id" := get record "id" ]}
      (take (Z.to_nat (limit + 1)) (attributes record)).
Proof.
  unfold getRecordColumnValues, eachAttribute.
  rewrite columnValues_loop. simpl. do 3 f_equal. lia.
Qed.

Lemma fill_columns_size (record : model) (keys : list string) :
  ∀ m : gmap string value,
    (size (fill_columns record m keys) ≤ size m + length keys)%nat.
Proof.
  induction keys as [|key keys IH]; intros m; simpl; [lia|].
  etrans; [apply IH|].
  destruct (m !! key) as [v|] eqn:Hm.
  - assert (size (<[key := get record key]> m) = size m) as ->; [|lia].
    rewrite <- (insert_delete_id m key v Hm) at 2.
    rewrite <- insert_delete_eq.
    rewrite !map_size_insert_None by apply lookup_delete_eq. reflexivity.
  - rewrite map_size_insert_None by done. lia.
Qed.

(** What the code guarantees: [id] plus at most [attributeLimit + 1]
    attributes, hence at most [attributeLimit + 2] entries. *)
Lemma getRecordColumnValues_size (limit : Z) (record : model) :
  0 ≤ limit →
  (size (getRecordColumnValues limit record) ≤ Z.to_nat limit + 2)%nat.
Proof.
  intros Hlimit. rewrite getRecordColumnValues_eq.
  etrans; [apply fill_columns_size|].
  rewrite map_size_singleton, length_take. lia.
Qed.

(** C5. With [attributeLimit = 3], a record with the four attributes
    [a], [b], [c], [d] gets five column values: the fourth attribute, [d], is
    sent as well. *)
Theorem getRecordColumnValues_sends_one_more :
  let record :=
    Model ["a"; "b"; "c"; "d"]
      (<["id" := VNum 1]> (<["a" := VStr "A"]> (<["b" := VStr "B"]>
       (<["c" := VStr "C"]> (<["d" := VStr "D"]> ∅))))) in
  size (getRecordColumnValues BaseAdapter.attributeLimit record) = 5%nat
  ∧ getRecordColumnValues BaseAdapter.attributeLimit record !! "d"
    = Some (VStr "D").
Proof. split; reflexivity. Qed.

(** ** Iteration and removal *)

(** When the callback leaves the iterated array alone, [forEach] visits
    every element once, in order. *)
Lemma forEach_from_stable {A} (array : world → list A)
    (callback : A → world → world) :
  (∀ x s, array (callback x s) = array s) →
  ∀ (remaining k : nat) (s : world),
    (k + remaining)%nat = length (array s) →
    forEach_from array callback k remaining s
    = foldl (λ s x, callback x s) s (drop k (array s)).
Proof.
  intros Hstable. induction remaining as [|n IH]; intros k s Hlen; simpl.
  - rewrite drop_ge by lia. reflexivity.
  - destruct (array s !! k) as [x|] eqn:Hk.
    + rewrite (drop_S _ _ _ Hk). simpl.
      rewrite IH by (rewrite Hstable; lia).
      by rewrite Hstable.
    + apply lookup_ge_None in Hk. lia.
Qed.

Lemma forEach_stable {A} (array : world → list A)
    (callback : A → world → world) (s : world) :
  (∀ x s, array (callback x s) = array s) →
  forEach array callback s = foldl (λ s x, callback x s) s (array s).
Proof.
  intros Hstable. unfold forEach.
  by rewrite (forEach_from_stable _ _ Hstable) by lia.
Qed.

Lemma filter_all {A} (P : A → Prop) `{∀ x, Decision (P x)} (l : list A) :
  Forall P l → filter P l = l.
Proof.
  induction 1 as [|x l Hx Hl IH]; [reflexivity|].
  rewrite filter_cons_True by done. by rewrite IH.
Qed.

Section RemoveFirst.
Context {A : Type} `{EqDecision A}.

Lemma remove_first_absent (x : A) (l : list A) :
  x ∉ l → remove_first x l = l.
Proof.
  induction l as [|y l IH]; intros Hx; simpl; [reflexivity|].
  apply not_elem_of_cons in Hx as [Hne Hx].
  destruct (decide (x = y)); [done|]. by rewrite IH.
Qed.

Lemma remove_first_middle (x : A) (l l' : list A) :
  x ∉ l → remove_first x (l ++ x :: l') = l ++ l'.
Proof.
  induction l as [|y l IH]; intros Hx; simpl.
  - destruct (decide (x = x)); done.
  - apply not_elem_of_cons in Hx as [Hne Hx].
    destruct (decide (x = y)); [done|]. by rewrite IH.
Qed.

Lemma remove_first_NoDup (x : A) (l : list A) :
  NoDup l → remove_first x l = filter (λ y, y ≠ x) l.
Proof.
  induction 1 as [|y l Hy Hl IH]; simpl; [reflexivity|].
  destruct (decide (x = y)) as [->|Hne].
  - rewrite filter_cons_False by (intros H; by apply H).
    symmetry. apply filter_all.
    apply Forall_forall. intros z Hz ->. done.
  - rewrite filter_cons_True by done. by rewrite IH.
Qed.

Lemma filter_ne_idemp (x : A) (l : list A) :
  filter (λ y, y ≠ x) (filter (λ y, y ≠ x) l) = filter (λ y, y ≠ x) l.
Proof.
  apply filter_all. apply Forall_forall.
  intros y Hy. by apply list_elem_of_filter in Hy as [? _].
Qed.

Lemma remove_first_idemp (x : A) (l : list A) :
  NoDup l → remove_first x (remove_first x l) = remove_first x l.
Proof.
  intros Hl. rewrite (remove_first_NoDup x l Hl).
  rewrite remove_first_NoDup by by apply NoDup_filter.
  apply filter_ne_idemp.
Qed.

Lemma remove_first_keeps_NoDup (x : A) (l : list A) :
  NoDup l → NoDup (remove_first x l).
Proof.
  intros Hl. rewrite remove_first_NoDup by done. by apply NoDup_filter.
Qed.

End RemoveFirst.

(** ** What the release closures do to the world *)

Lemma call_removeFns_eq (fns : list removeFn) (s : world) :
  foldl (λ s fn, call_removeFn fn s) s fns
  = with_observers (drop_observers fns) s.
Proof.
  revert s. induction fns as [|[record key h] fns IH]; intros s; simpl.
  - by destruct s.
  - rewrite IH. reflexivity.
Qed.

Lemma call_recordRelease_eq (release : recordRelease) (s : world) :
  call_recordRelease release s
  = with_observers (drop_observers (release_targets release)) s.
Proof.
  destruct release as [|fns]; simpl.
  - by destruct s.
  - rewrite forEach_stable by done. apply call_removeFns_eq.
Qed.

Lemma drop_observers_app (fns fns' : list removeFn)
    (obs : list (nat * string * handler)) :
  drop_observers (fns ++ fns') obs = drop_observers fns' (drop_observers fns obs).
Proof. unfold drop_observers. by rewrite foldl_app. Qed.

Lemma call_recordReleases_eq (releases : list recordRelease) (s : world) :
  foldl (λ s fn, call_recordRelease fn s) s releases
  = with_observers (drop_observers (concat (release_targets <$> releases))) s.
Proof.
  revert s. induction releases as [|fn releases IH]; intros s; simpl.
  - by destruct s.
  - rewrite IH, call_recordRelease_eq. unfold with_observers; simpl.
    by rewrite drop_observers_app.
Qed.

Lemma call_watchRelease_eq (release : watchRelease) (s : world) :
  call_watchRelease release s
  = removeObject release
      (removeArrayObserver (rel_records release) (rel_observer release)
         (with_observers (drop_observers (watch_targets release s)) s)).
Proof.
  unfold call_watchRelease. rewrite forEach_stable.
  - by rewrite call_recordReleases_eq.
  - intros fn s'. by rewrite call_recordRelease_eq.
Qed.

Lemma drop_observers_NoDup (fns : list removeFn)
    (obs : list (nat * string * handler)) :
  NoDup obs →
  drop_observers fns obs = filter (λ o, o ∉ observer_of <$> fns) obs
  ∧ NoDup (drop_observers fns obs).
Proof.
  revert obs. induction fns as [|fn fns IH]; intros obs Hobs; simpl.
  - split; [|done]. symmetry. apply filter_all, Forall_forall.
    intros o _. apply not_elem_of_nil.
  - destruct (IH (remove_first (observer_of fn) obs)) as [Heq Hnd];
      [by apply remove_first_keeps_NoDup|].
    split; [|exact Hnd]. unfold drop_observers in *; simpl. rewrite Heq.
    rewrite remove_first_NoDup by done. rewrite list_filter_filter.
    apply list_filter_iff. intros o. rewrite not_elem_of_cons. tauto.
Qed.

Lemma drop_observers_idemp (fns : list removeFn)
    (obs : list (nat * string * handler)) :
  NoDup obs →
  drop_observers fns (drop_observers fns obs) = drop_observers fns obs.
Proof.
  intros Hobs. destruct (drop_observers_NoDup fns obs Hobs) as [Heq Hnd].
  destruct (drop_observers_NoDup fns _ Hnd) as [Heq' _].
  rewrite Heq'. apply filter_all, Forall_forall.
  intros o Ho. rewrite Heq in Ho. by apply list_elem_of_filter in Ho as [? _].
Qed.

(** The observers registered by [addObserver] never repeat. *)
Lemma addObserver_NoDup (record : nat) (key : string) (h : handler) (s : world) :
  NoDup (observers s) → NoDup (observers (addObserver record key h s)).
Proof.
  intros Hs. unfold addObserver; simpl.
  destruct (decide ((record, key, h) ∈ observers s)); [done|].
  apply NoDup_app. split; [done|]. split.
  - intros o Ho Hin. apply list_elem_of_singleton in Hin. by subst.
  - apply NoDup_singleton.
Qed.

Lemma addArrayObserver_NoDup (array : nat) (o : arrayObserver) (s : world) :
  NoDup (arrayObservers s) → NoDup (arrayObservers (addArrayObserver array o s)).
Proof.
  intros Hs. unfold addArrayObserver; simpl.
  destruct (decide ((array, o) ∈ arrayObservers s)); [done|].
  apply NoDup_app. split; [done|]. split.
  - intros x Hx Hin. apply list_elem_of_singleton in Hin. by subst.
  - apply NoDup_singleton.
Qed.

Lemma call_recordRelease_idemp (release : recordRelease) (s : world) :
  NoDup (observers s) →
  call_recordRelease release (call_recordRelease release s)
  = call_recordRelease release s.
Proof.
  intros Hs. rewrite !call_recordRelease_eq. unfold with_observers; simpl.
  by rewrite drop_observers_idemp.
Qed.

Lemma call_watchRelease_idemp (release : watchRelease) (s : world) :
  NoDup (observers s) → NoDup (arrayObservers s) →
  call_watchRelease release (call_watchRelease release s)
  = call_watchRelease release s.
Proof.
  intros Hobs Harr. rewrite !call_watchRelease_eq.
  destruct s as [recs obs arrays arrobs rels reg vars proms ths unh tr n].
  cbn [observers arrayObservers] in Hobs, Harr.
  unfold removeObject, removeArrayObserver, watch_targets, readReleaseArray.
  world_simpl.
  rewrite drop_observers_idemp by done.
  rewrite remove_first_idemp by done.
  rewrite filter_ne_idemp. reflexivity.
Qed.

(** C6. Calling a disposer a second time changes nothing: for the function
    returned by [observeRecord] and for the [release] of [watchRecords], the
    world after two calls is the world after one (observer tables, array
    observers and the adapter's [releaseMethods] included), and neither call
    invokes a callback of the inspector. *)
Theorem release_idempotent (s : world) :
  NoDup (observers s) → NoDup (arrayObservers s) →
  (∀ release : recordRelease,
     call_recordRelease release (call_recordRelease release s)
     = call_recordRelease release s
     ∧ trace (call_recordRelease release s) = trace s)
  ∧ (∀ release : watchRelease,
       call_watchRelease release (call_watchRelease release s)
       = call_watchRelease release s
       ∧ trace (call_watchRelease release s) = trace s).
Proof.
  intros Hobs Harr. split; intros release; split.
  - by apply call_recordRelease_idemp.
  - by rewrite call_recordRelease_eq.
  - by apply call_watchRelease_idemp.
  - by rewrite call_watchRelease_eq.
Qed.

(** ** Observing one record *)

Lemma observer_of_new_removeFns record recordUpdated n keys :
  observer_of <$> new_removeFns record recordUpdated n keys
  = new_observers record recordUpdated n keys.
Proof.
  unfold new_removeFns, new_observers. rewrite fmap_imap. reflexivity.
Qed.

Lemma new_observers_cons record recordUpdated n key keys :
  new_observers record recordUpdated n (key :: keys)
  = (record, key, Handler n record recordUpdated)
    :: new_observers record recordUpdated (S n) keys.
Proof.
  unfold new_observers. simpl. rewrite Nat.add_0_r. f_equal.
  apply imap_ext. intros i key' _. simpl. do 2 f_equal. lia.
Qed.

Lemma new_removeFns_cons record recordUpdated n key keys :
  new_removeFns record recordUpdated n (key :: keys)
  = RemoveObserver record key (Handler n record recordUpdated)
    :: new_removeFns record recordUpdated (S n) keys.
Proof.
  unfold new_removeFns. simpl. rewrite Nat.add_0_r. f_equal.
  apply imap_ext. intros i key' _. simpl. do 2 f_equal. lia.
Qed.

Lemma elem_of_new_observers record recordUpdated n keys o :
  o ∈ new_observers record recordUpdated n keys →
  (n ≤ handler_id o.2)%nat ∧ o.1.1 = record
  ∧ handler_recordUpdated o.2 = recordUpdated ∧ handler_record o.2 = record.
Proof.
  unfold new_observers. intros Ho.
  apply list_elem_of_lookup in Ho as [i Hi].
  rewrite list_lookup_imap in Hi.
  destruct (keys !! i) as [key|]; simplify_eq/=. repeat split; lia.
Qed.

Lemma key_in_new_observers record recordUpdated n keys key :
  key ∈ keys →
  ∃ h, (record, key, h) ∈ new_observers record recordUpdated n keys
       ∧ handler_record h = record
       ∧ handler_recordUpdated h = recordUpdated.
Proof.
  intros Hkey. apply list_elem_of_lookup in Hkey as [i Hi].
  exists (Handler (n + i) record recordUpdated). split; [|done].
  apply list_elem_of_lookup. exists i.
  unfold new_observers. rewrite list_lookup_imap, Hi. reflexivity.
Qed.

Lemma observeKey_eq record recordUpdated key (s : world) :
  fresh_handlers s →
  observeKey record recordUpdated key s
  = (RemoveObserver record key (Handler (next s) record recordUpdated),
     with_next S
       (with_observers
          (λ obs, obs ++ [(record, key, Handler (next s) record recordUpdated)])
          s)).
Proof.
  intros Hfresh. unfold observeKey, bind, fresh, modify, ret, addObserver.
  simpl. f_equal. unfold with_observers, with_next; simpl.
  destruct (decide (_ ∈ observers s)) as [Hin|]; [|reflexivity].
  apply Hfresh in Hin. simpl in Hin. lia.
Qed.

Lemma observeKeys_eq record recordUpdated (keys : list string) :
  ∀ s : world,
    fresh_handlers s →
    mapM (observeKey record recordUpdated) keys s
    = (new_removeFns record recordUpdated (next s) keys,
       with_next (λ n, (n + length keys)%nat)
         (with_observers
            (λ obs, obs ++ new_observers record recordUpdated (next s) keys)
            s)).
Proof.
  induction keys as [|key keys IH]; intros s Hfresh.
  - simpl. unfold ret. f_equal. destruct s; unfold with_next, with_observers;
      simpl. by rewrite app_nil_r, Nat.add_0_r.
  - cbn [mapM]. unfold bind at 1. rewrite observeKey_eq by done.
    unfold bind at 1. rewrite IH.
    + unfold ret. rewrite new_removeFns_cons, new_observers_cons. simpl.
      f_equal. unfold with_next, with_observers; simpl.
      rewrite <- app_assoc. simpl. f_equal. lia.
    + intros o Ho. simpl in *.
      apply elem_of_app in Ho as [Ho|Ho].
      * apply Hfresh in Ho. lia.
      * apply list_elem_of_singleton in Ho. subst o. simpl. lia.
Qed.

Lemma observeRecord_from_eq keys0 record recordUpdated (s : world) :
  fresh_handlers s →
  let keys := keys0 ++ attributes (readRecord record s) in
  observeRecord_from keys0 record recordUpdated s
  = (ObserveRelease (new_removeFns record recordUpdated (next s) keys),
     with_next (λ n, (n + length keys)%nat)
       (with_observers
          (λ obs, obs ++ new_observers record recordUpdated (next s) keys) s)).
Proof.
  intros Hfresh keys. unfold observeRecord_from, bind, eachAttribute.
  rewrite foldl_push. fold keys. rewrite observeKeys_eq by done. reflexivity.
Qed.

(** Releasing right after observing removes exactly the observers that were
    added. *)
Lemma drop_new_observers (fns : list removeFn)
    (obs : list (nat * string * handler)) :
  (∀ fn, fn ∈ fns → observer_of fn ∉ obs) →
  drop_observers fns (obs ++ (observer_of <$> fns)) = obs.
Proof.
  induction fns as [|fn fns IH]; intros Hnew; simpl.
  - by rewrite app_nil_r.
  - unfold drop_observers in *; simpl.
    rewrite remove_first_middle by (apply Hnew; left).
    apply IH. intros fn' Hfn'. apply Hnew. by right.
Qed.

(** ** Mutating an observed record *)

Section Notification.
Variable self : adapter.

Lemma wrapRecord_records (record : nat) (s s' : world) :
  records s = records s' →
  (wrapRecord self record s).1 = (wrapRecord self record s').1.
Proof. intros Heq. unfold wrapRecord, readRecord. simpl. by rewrite Heq. Qed.

Lemma call_handler_eq (h : handler) (s : world) :
  exec (call_handler self h) s
  = with_trace
      (λ t, t ++ [recordUpdated_call (handler_recordUpdated h)
                    (wrapRecord self (handler_record h) s).1]) s.
Proof. reflexivity. Qed.

Lemma call_handlers_eq (listeners : list (nat * string * handler)) :
  ∀ s : world,
    foldl (λ s o, exec (call_handler self o.2) s) s listeners
    = with_trace (λ t, t ++ (listener_event self s <$> listeners)) s.
Proof.
  induction listeners as [|o listeners IH]; intros s; simpl.
  - destruct s; unfold with_trace; simpl. by rewrite app_nil_r.
  - rewrite IH, call_handler_eq.
    set (s1 := with_trace _ s).
    assert (listener_event self s1 <$> listeners
            = listener_event self s <$> listeners)
      as ->.
    { apply list_fmap_ext. intros _ o' _. unfold listener_event.
      by rewrite (wrapRecord_records _ s1 s). }
    unfold s1. world_simpl. rewrite <- app_assoc. reflexivity.
Qed.

Lemma Ember_set_eq (record : nat) (key : string) (v : value) (s : world) :
  get (readRecord record s) key ≠ v →
  let r := readRecord record s in
  let s1 := with_records
              <[record := Model (attributes r) (<[key := v]> (properties r))]> s in
  Ember_set self record key v s
  = with_trace
      (λ t, t ++ (listener_event self s1 <$>
                    filter (λ o, o.1.1 = record ∧ o.1.2 = key) (observers s)))
      s1.
Proof.
  intros Hne r s1. unfold Ember_set. fold r.
  destruct (decide (get r key = v)) as [Heq|_]; [done|].
  rewrite call_handlers_eq. reflexivity.
Qed.

Lemma Ember_set_reads_back (record : nat) (key : string) (v : value) (s : world) :
  get (readRecord record (Ember_set self record key v s)) key = v.
Proof.
  unfold Ember_set. cbv zeta.
  destruct (decide (get (readRecord record s) key = v)) as [Heq|Hne]; [done|].
  rewrite call_handlers_eq. unfold readRecord, get; simpl.
  rewrite lookup_insert_eq. simpl. by rewrite lookup_insert_eq.
Qed.

End Notification.

(** C7. [observeRecord] of lib/debug/debug_adapter.js, called on a record in
    any world whose handler identities are below the next fresh one:
    - it appends one observer per key, each with a handler of its own, for
      [id], the five status flags and every declared attribute;
    - afterwards, changing the value of any of those keys makes the
      [recordUpdated] callback run with [wrapRecord] of the record as it is
      after the change;
    - calling the returned function takes the observer table back to what it
      was before [observeRecord]. *)
Theorem observeRecord_tracks_every_key (getRecords : string → M nat)
    (s : world) (record : nat) (recordUpdated : recordUpdatedFn) :
  fresh_handlers s →
  let self := DebugAdapter.self getRecords in
  let observed := DebugAdapter.observeRecord record recordUpdated s in
  let keys := ["id"; "isNew"; "isProxy"; "isPromise"; "isLoaded"; "isDeleted"]
              ++ attributes (readRecord record s) in
  observers observed.2
  = observers s
    ++ imap (λ i key, (record, key,
                       Handler (next s + i) record recordUpdated)) keys
  ∧ (∀ (key : string) (v : value),
       key = "id" ∨ key ∈ attributes (readRecord record s)
       ∨ key ∈ ["isNew"; "isProxy"; "isPromise"; "isLoaded"; "isDeleted"] →
       get (readRecord record observed.2) key ≠ v →
       let s' := Ember_set self record key v observed.2 in
       get (readRecord record s') key = v
       ∧ ∃ calls, trace s' = trace observed.2 ++ calls
                  ∧ recordUpdated_call recordUpdated
                      (wrapRecord self record s').1 ∈ calls)
  ∧ observers (call_recordRelease observed.1 observed.2) = observers s.
Proof.
  intros Hfresh self observed keys.
  assert (observed
          = (ObserveRelease (new_removeFns record recordUpdated (next s) keys),
             with_next (λ n, (n + length keys)%nat)
               (with_observers
                  (λ obs, obs ++ new_observers record recordUpdated (next s) keys)
                  s))) as Hobserved.
  { unfold observed, DebugAdapter.observeRecord.
    by rewrite observeRecord_from_eq. }
  rewrite Hobserved. cbn [fst snd]. split; [reflexivity|]. split.
  - intros key v Hkey Hne. split; [apply Ember_set_reads_back|].
    assert (key ∈ keys) as Hin.
    { unfold keys. destruct Hkey as [->|[Hattr|Hflag]].
      - apply elem_of_app. left. by left.
      - apply elem_of_app. by right.
      - apply elem_of_app. left. by right. }
    destruct (key_in_new_observers record recordUpdated (next s) keys key Hin)
      as (h & Hh & Hrec & Hupd).
    rewrite Ember_set_eq by exact Hne.
    eexists. split; [reflexivity|].
    apply list_elem_of_fmap. exists (record, key, h). split.
    + unfold listener_event. cbn [fst snd]. rewrite Hrec, Hupd. reflexivity.
    + apply list_elem_of_filter. split; [done|].
      world_simpl. apply elem_of_app. by right.
  - rewrite call_recordRelease_eq.
    world_simpl. cbn [release_targets].
    rewrite <- observer_of_new_removeFns. apply drop_new_observers.
    intros fn Hfn Hobs.
    assert (observer_of fn ∈ new_observers record recordUpdated (next s) keys)
      as Hnew.
    { rewrite <- observer_of_new_removeFns. apply list_elem_of_fmap. eauto. }
    apply elem_of_new_observers in Hnew as [Hge _].
    apply Hfresh in Hobs. lia.
Qed.

Lemma observeRecord_tracks_every_key_witness :
  fresh_handlers sample_store
  ∧ (let self := DebugAdapter.self BaseAdapter.getRecords in
     let observed :=
       DebugAdapter.observeRecord 0 (ConsumerRecordUpdated "recordUpdated")
         sample_store in
     observers (call_recordRelease observed.1 observed.2)
     = observers sample_store
     ∧ ∃ calls,
         trace (Ember_set self 0 "isDeleted" (VBool true) observed.2)
         = trace observed.2 ++ calls
         ∧ Call1 "recordUpdated"
             (wrapRecord self 0
                (Ember_set self 0 "isDeleted" (VBool true) observed.2)).1
           ∈ calls).
Proof.
  assert (fresh_handlers sample_store) as Hfresh.
  { intros o Ho. vm_compute in Ho. by apply elem_of_nil in Ho. }
  split; [exact Hfresh|].
  destruct (observeRecord_tracks_every_key BaseAdapter.getRecords sample_store
              0%nat (ConsumerRecordUpdated "recordUpdated") Hfresh)
    as (_ & Hset & Hrelease).
  split; [exact Hrelease|].
  destruct (Hset "isDeleted" (VBool true)) as [_ Hcalls].
  - right. right. repeat constructor.
  - vm_compute. discriminate.
  - exact Hcalls.
Defined.

Lemma release_idempotent_witness :
  let observed :=
    DebugAdapter.observeRecord 0 (ConsumerRecordUpdated "recordUpdated")
      sample_store in
  let watched :=
    watchRecords LoggingAdapter.self "Post" "recordsAdded" "recordsUpdated"
      "recordsRemoved" observed.2 in
  NoDup (observers watched.2) ∧ NoDup (arrayObservers watched.2)
  ∧ call_recordRelease observed.1 (call_recordRelease observed.1 watched.2)
    = call_recordRelease observed.1 watched.2
  ∧ call_watchRelease watched.1 (call_watchRelease watched.1 watched.2)
    = call_watchRelease watched.1 watched.2.
Proof.
  intros observed watched.
  assert (NoDup (observers watched.2)) as Hobs.
  { refine (@bool_decide_unpack (NoDup (observers watched.2)) _ _).
    vm_compute. exact I. }
  assert (NoDup (arrayObservers watched.2)) as Harr.
  { refine (@bool_decide_unpack (NoDup (arrayObservers watched.2)) _ _).
    vm_compute. exact I. }
  destruct (release_idempotent watched.2 Hobs Harr) as [Hrecord Hwatch].
  split; [exact Hobs|]. split; [exact Harr|]. split.
  - exact (proj1 (Hrecord observed.1)).
  - exact (proj1 (Hwatch watched.1)).
Defined.

(** A record inserted into a watched array is wrapped, announced and
    observed, and [release] then drops its observers again. The adapter is
    lib/debug/debug_adapter.js over a [getRecords] that returns a new empty
    array. *)
Example insertion_spawns_watchers :
  let self := DebugAdapter.self BaseAdapter.getRecords in
  let w := watchRecords self "Post" "recordsAdded" "recordsUpdated"
             "recordsRemoved" sample_store in
  let s := arrayReplace self (rel_records w.1) 0 0 [0%nat] w.2 in
  trace s
  = [CallBatch "recordsAdded" [];
     CallBatch "recordsAdded" [(wrapRecord self 0 sample_store).1]]
  ∧ (λ o, o.1.2) <$> observers s
    = ["id"; "isNew"; "isProxy"; "isPromise"; "isLoaded"; "isDeleted";
       "title"; "body"]
  ∧ trace (Ember_set self 0 "isDeleted" (VBool true) s)
    = trace s
      ++ [CallBatch "recordsUpdated"
            [(wrapRecord self 0
                (Ember_set self 0 "isDeleted" (VBool true) s)).1]]
  ∧ observers (call_watchRelease w.1 s) = [].
Proof. vm_compute. repeat split; reflexivity. Qed.

(** The revisions that log with [console.log] do not observe the status
    flags. *)
Example console_revision_keys :
  (λ o, o.1.2)
    <$> observers
          (ConsoleAdapter.observeRecord 0 (ConsumerRecordUpdated "recordUpdated")
             sample_store).2
  = ["id"; "title"; "body"].
Proof. reflexivity. Qed.

(** ** Tearing the adapter down *)

Lemma releaseMethods_call_watchRelease (release : watchRelease) (s : world) :
  releaseMethods (call_watchRelease release s)
  = filter (λ r, r ≠ release) (releaseMethods s).
Proof. by rewrite call_watchRelease_eq. Qed.

(** With two subscriptions outstanding, one pass of the loop is one call
    of the first [release]: that call removes the first entry of the array
    being iterated, the second entry moves to index 0, and index 1, where
    [forEach] looks next, is gone. The second pass of [willDestroy] then
    finds the second [release] at index 0 and calls it. *)
Lemma willDestroy_pair (s : world) (r1 r2 : watchRelease) :
  releaseMethods s = [r1; r2] → r1 ≠ r2 →
  DataAdapter_willDestroy s = call_watchRelease r1 s
  ∧ willDestroy s = call_watchRelease r2 (call_watchRelease r1 s)
  ∧ releaseMethods (willDestroy s) = [].
Proof.
  intros Hreg Hne.
  assert (releaseMethods (call_watchRelease r1 s) = [r2]) as Hafter.
  { rewrite releaseMethods_call_watchRelease, Hreg.
    rewrite filter_cons_False by (intros H; by apply H).
    rewrite filter_cons_True by done. reflexivity. }
  assert (DataAdapter_willDestroy s = call_watchRelease r1 s) as Hsuper.
  { unfold DataAdapter_willDestroy, forEach. rewrite Hreg.
    cbn [length forEach_from].
    rewrite Hreg. cbn [lookup list_lookup]. by rewrite Hafter. }
  assert (willDestroy s = call_watchRelease r2 (call_watchRelease r1 s))
    as Hwill.
  { unfold willDestroy. cbv zeta. rewrite Hsuper. unfold forEach.
    rewrite Hafter. cbn [length forEach_from]. rewrite Hafter.
    reflexivity. }
  split; [exact Hsuper|]. split; [exact Hwill|].
  rewrite Hwill, releaseMethods_call_watchRelease, Hafter.
  by rewrite filter_cons_False by (intros H; by apply H).
Qed.

(** C1. Four [watchRecords] subscriptions, then [willDestroy]: the fourth
    [release] never runs. It is still in the adapter's [releaseMethods]
    afterwards and its array observer is still attached; the other three
    have run and are gone. (With two subscriptions both are released.) *)
Theorem willDestroy_skips_fourth_release :
  let w1 := watchRecords BaseAdapter.self "Post" "postsAdded" "postsUpdated"
              "postsRemoved" sample_store in
  let w2 := watchRecords BaseAdapter.self "Comment" "commentsAdded"
              "commentsUpdated" "commentsRemoved" w1.2 in
  let w3 := watchRecords BaseAdapter.self "Author" "authorsAdded"
              "authorsUpdated" "authorsRemoved" w2.2 in
  let w4 := watchRecords BaseAdapter.self "Tag" "tagsAdded" "tagsUpdated"
              "tagsRemoved" w3.2 in
  let s := willDestroy w4.2 in
  releaseMethods w4.2 = [w1.1; w2.1; w3.1; w4.1]
  ∧ releaseMethods s = [w4.1]
  ∧ arrayObservers s = [(rel_records w4.1, rel_observer w4.1)]
  ∧ releaseMethods (willDestroy w2.2) = []
  ∧ arrayObservers (willDestroy w2.2) = [].
Proof.
  intros w1 w2 w3 w4 s.
  split; [vm_compute; reflexivity|]. split; [vm_compute; reflexivity|].
  split; [vm_compute; reflexivity|]. split; vm_compute; reflexivity.
Qed.

(** ** Watching a collection whose query is still pending *)

Lemma foldl_invariant {A B} (f : A → B → A) (P : A → Prop) (Q : B → Prop)
    (l : list B) :
  (∀ a b, P a → Q b → P (f a b)) →
  Forall Q l → ∀ a, P a → P (foldl f a l).
Proof.
  intros Hstep Hl. induction Hl as [|b l Hb Hl IH]; intros a Ha; simpl.
  - exact Ha.
  - apply IH. by apply Hstep.
Qed.

(** Settling a promise runs nothing but assignments to [getRecords]' local
    variable: no callback of the inspector, no observer, no release. *)
Lemma settle_entry_silent (p : nat) (o : outcome) (s : world) (t : thenEntry) :
  trace (settle_entry p o s t) = trace s
  ∧ observers (settle_entry p o s t) = observers s
  ∧ arrayObservers (settle_entry p o s t) = arrayObservers s
  ∧ releaseMethods (settle_entry p o s t) = releaseMethods s.
Proof.
  destruct o as [values|error], t as [q [[var|var]|] [[var'|var']|]];
    repeat split; reflexivity.
Qed.

Lemma settle_silent (p : nat) (o : outcome) (s : world) :
  trace (settle p o s) = trace s
  ∧ observers (settle p o s) = observers s
  ∧ arrayObservers (settle p o s) = arrayObservers s
  ∧ releaseMethods (settle p o s) = releaseMethods s.
Proof.
  unfold settle.
  apply (foldl_invariant (settle_entry p o)
           (λ s', trace s' = trace s ∧ observers s' = observers s
                  ∧ arrayObservers s' = arrayObservers s
                  ∧ releaseMethods s' = releaseMethods s)
           (λ _, True)).
  - intros s' t (Ht & Ho & Ha & Hr) _.
    destruct (settle_entry_silent p o s' t) as (Ht' & Ho' & Ha' & Hr').
    repeat split; congruence.
  - apply Forall_forall. done.
  - repeat split; reflexivity.
Qed.

(** [getRecords] of the logging revision: four fresh identities (array,
    variable, promise), one [then] registration, and the array just created
    is what it returns. *)
Lemma LoggingAdapter_getRecords_eq (type : string) (s : world) :
  let a := next s in
  let var := S a in
  let p := S var in
  LoggingAdapter.getRecords type s
  = (a,
     World (records s) (observers s) (<[a := []]> (recordArrays s))
       (arrayObservers s) (releaseArrays s) (releaseMethods s)
       (<[var := a]> (variables s)) (<[p := type]> (promises s))
       (thens s ++ [ThenEntry p (Some (GetRecordsFulfilled var))
                               (Some (GetRecordsRejected var))])
       (unhandled s) (trace s) (S p)).
Proof.
  destruct s as [recs obs arrays arrobs rels reg vars proms ths unh tr n].
  unfold LoggingAdapter.getRecords, newRecordArray, query, then_, bind, fresh,
    modify, ret.
  world_simpl. by rewrite lookup_insert_eq.
Qed.

(** [watchRecords] over the logging revision, in any world: the array it
    watches is the empty one [getRecords] created, so no record is observed
    and the one batch sent to [recordsAdded] is empty. *)
Lemma LoggingAdapter_watchRecords_eq (type recordsAdded recordsUpdated
    recordsRemoved : string) (s : world) :
  let releases := next s in
  let array := S releases in
  let var := S array in
  let p := S var in
  let observer :=
    ArrayObserver releases recordsAdded recordsUpdated recordsRemoved in
  let release := WatchRelease releases array observer in
  watchRecords LoggingAdapter.self type recordsAdded recordsUpdated
    recordsRemoved s
  = (release,
     World (records s) (observers s) (<[array := []]> (recordArrays s))
       (if decide ((array, observer) ∈ arrayObservers s)
        then arrayObservers s else arrayObservers s ++ [(array, observer)])
       (<[releases := []]> (releaseArrays s))
       (releaseMethods s ++ [release])
       (<[var := array]> (variables s)) (<[p := type]> (promises s))
       (thens s ++ [ThenEntry p (Some (GetRecordsFulfilled var))
                               (Some (GetRecordsRejected var))])
       (unhandled s) (trace s ++ [CallBatch recordsAdded []]) (S p)).
Proof.
  intros releases array var p observer release.
  unfold watchRecords, newReleaseArray. unfold bind at 1. unfold bind at 1.
  unfold fresh at 1. unfold bind at 1. unfold modify at 1. unfold bind at 1.
  unfold ret at 1. unfold bind at 1.
  cbn [self_getRecords LoggingAdapter.self].
  rewrite LoggingAdapter_getRecords_eq.
  unfold bind, modify, ret, emit, addArrayObserver, pushObject,
    readRecordArray.
  world_simpl. rewrite lookup_insert_eq. reflexivity.
Qed.

(** The promise [getRecords] obtains from the store when [watchRecords]
    starts in world [s]. *)
Lemma watch_promise_pending (type recordsAdded recordsUpdated
    recordsRemoved : string) (s : world) :
  promises
    (watchRecords LoggingAdapter.self type recordsAdded recordsUpdated
       recordsRemoved s).2
  !! watch_promise s = Some type.
Proof.
  rewrite LoggingAdapter_watchRecords_eq. world_simpl.
  apply lookup_insert_eq.
Qed.

(** C2 as it is stated: nothing is ever sent for a subscription that is
    released before its query resolves. *)
Lemma early_release_is_not_silent :
  ¬ silent_after_early_release sample_store "Post" "recordsAdded"
      "recordsUpdated" "recordsRemoved" 1.
Proof.
  unfold silent_after_early_release. vm_compute. discriminate.
Qed.

(** C2, amended. [watchRecords] calls [recordsAdded] once, with an empty
    batch, before it returns the disposer. When the disposer is then called
    and the query resolves afterwards, nothing more is sent and the observer
    table is what it was before the subscription: the completion handler
    only assigns a local variable of [getRecords]. *)
Theorem early_release_then_resolution (type recordsAdded recordsUpdated
    recordsRemoved : string) (values : nat) (s : world) :
  let w := watchRecords LoggingAdapter.self type recordsAdded recordsUpdated
             recordsRemoved s in
  let released := call_watchRelease w.1 w.2 in
  let resolved := settle (watch_promise s) (Fulfilled values) released in
  promises w.2 !! watch_promise s = Some type
  ∧ trace w.2 = trace s ++ [CallBatch recordsAdded []]
  ∧ trace resolved = trace w.2
  ∧ observers resolved = observers s
  ∧ w.1 ∉ releaseMethods resolved.
Proof.
  intros w released resolved.
  pose proof (watch_promise_pending type recordsAdded recordsUpdated
                recordsRemoved s) as Hpending.
  pose proof (LoggingAdapter_watchRecords_eq type recordsAdded recordsUpdated
                recordsRemoved s) as Hw.
  cbv zeta in Hw. fold w in Hpending, Hw.
  destruct w as [release s1]. cbn [fst snd] in *.
  injection Hw as Hrelease Hs1.
  destruct (settle_silent (watch_promise s) (Fulfilled values) released)
    as (Ht & Ho & _ & Hr).
  fold resolved in Ht, Ho, Hr. clearbody resolved.
  assert (readReleaseArray (rel_releaseMethods release) s1 = []) as Hreleases.
  { rewrite Hs1, Hrelease. unfold readReleaseArray. world_simpl.
    cbn [rel_releaseMethods]. by rewrite lookup_insert_eq. }
  assert (released
          = removeObject release
              (removeArrayObserver (rel_records release)
                 (rel_observer release) s1))
    as Hreleased.
  { unfold released. rewrite call_watchRelease_eq.
    unfold watch_targets. rewrite Hreleases. cbn [fmap list_fmap concat].
    unfold drop_observers. cbn [foldl]. by destruct s1. }
  clearbody released. subst released.
  split; [exact Hpending|].
  split; [by rewrite Hs1|].
  split; [rewrite Ht; reflexivity|].
  split; [rewrite Ho, Hs1; reflexivity|].
  rewrite Hr. unfold removeObject. world_simpl.
  intros Hin. apply list_elem_of_filter in Hin as [Hne _]. by apply Hne.
Qed.

Lemma filter_none {A} (P : A → Prop) `{∀ x, Decision (P x)} (l : list A) :
  Forall (λ x, ¬ P x) l → filter P l = [].
Proof.
  induction 1 as [|x l Hx Hl IH]; [reflexivity|].
  by rewrite filter_cons_False.
Qed.

(** C3. Subscribe with the logging revision, then let the query be
    rejected. [recordsAdded] has been called exactly once, with an empty
    batch; the rejection is consumed by the handler [getRecords] registered
    (nothing is left unhandled); the watched collection is empty and no
    record is observed. *)
Theorem rejected_query_is_an_empty_collection (type recordsAdded
    recordsUpdated recordsRemoved : string) (error : value) (s : world) :
  Forall (λ t, (then_promise t < next s)%nat) (thens s) →
  let w := watchRecords LoggingAdapter.self type recordsAdded recordsUpdated
             recordsRemoved s in
  let rejected := settle (watch_promise s) (Rejected error) w.2 in
  promises w.2 !! watch_promise s = Some type
  ∧ trace rejected = trace s ++ [CallBatch recordsAdded []]
  ∧ unhandled rejected = unhandled s
  ∧ readRecordArray (rel_records w.1) rejected = []
  ∧ observers rejected = observers s.
Proof.
  intros Hold w rejected.
  pose proof (watch_promise_pending type recordsAdded recordsUpdated
                recordsRemoved s) as Hpending.
  pose proof (LoggingAdapter_watchRecords_eq type recordsAdded recordsUpdated
                recordsRemoved s) as Hw.
  cbv zeta in Hw. fold w in Hpending, Hw.
  destruct w as [release s1]. cbn [fst snd] in *.
  injection Hw as Hrelease Hs1.
  split; [exact Hpending|]. clear Hpending.
  assert (filter (λ t, then_promise t = watch_promise s) (thens s1)
          = [ThenEntry (watch_promise s)
               (Some (GetRecordsFulfilled (2 + next s)%nat))
               (Some (GetRecordsRejected (2 + next s)%nat))]) as Hmine.
  { rewrite Hs1. world_simpl. rewrite filter_app, filter_none.
    - by rewrite filter_cons_True.
    - eapply Forall_impl; [exact Hold|].
      intros t Ht. unfold watch_promise. cbv beta in Ht. lia. }
  unfold rejected, settle. rewrite Hmine.
  cbn [foldl settle_entry onRejected].
  unfold exec, run_thenFn, newRecordArray, bind, fresh, modify, ret,
    readRecordArray.
  rewrite Hs1, Hrelease. world_simpl. cbn [rel_records].
  split; [reflexivity|]. split; [reflexivity|]. split; [|reflexivity].
  rewrite lookup_insert_ne by lia. by rewrite lookup_insert_eq.
Qed.

Lemma rejected_query_is_an_empty_collection_witness :
  Forall (λ t, (then_promise t < next sample_store)%nat) (thens sample_store)
  ∧ (let w := watchRecords LoggingAdapter.self "Post" "recordsAdded"
                "recordsUpdated" "recordsRemoved" sample_store in
     let rejected :=
       settle (watch_promise sample_store) (Rejected (VStr "timeout")) w.2 in
     trace rejected = [CallBatch "recordsAdded" []]
     ∧ unhandled rejected = []).
Proof.
  assert (Forall (λ t, (then_promise t < next sample_store)%nat)
            (thens sample_store)) as Hold by apply Forall_nil_2.
  split; [exact Hold|].
  destruct (rejected_query_is_an_empty_collection "Post" "recordsAdded"
              "recordsUpdated" "recordsRemoved" (VStr "timeout") sample_store
              Hold) as (_ & Htrace & Hunhandled & _).
  split; [exact Htrace | exact Hunhandled].
Defined.

(** ** Filters, columns and debug groups *)

(** X1. Every filter the catalogue offers has a value in the [filterValues] of
    every record, that value is the record's flag of the same name, there
    is no other key, and lib/debug/debug_adapter.js observes each of these
    flags. *)
Theorem filterValues_cover_getFilters (record : model) :
  dom (getRecordFilterValues record) = list_to_set (filter_name <$> getFilters)
  ∧ Forall (λ f, getRecordFilterValues record !! filter_name f
                 = Some (get record (filter_name f))
                 ∧ filter_name f ∈ DebugAdapter.keysToObserve) getFilters.
Proof.
  split.
  - unfold getRecordFilterValues. rewrite !dom_insert_L, dom_empty_L.
    cbn [getFilters fmap list_fmap filter_name list_to_set]. set_solver.
  - unfold getFilters, DebugAdapter.keysToObserve.
    repeat (apply Forall_cons; split;
            [split; [reflexivity | set_solver]|]).
    apply Forall_nil_2.
Qed.

Lemma fill_columns_dom (record : model) (keys : list string) :
  ∀ m : gmap string value,
    dom (fill_columns record m keys) = dom m ∪ list_to_set keys.
Proof.
  induction keys as [|key keys IH]; intros m; simpl.
  - by rewrite union_empty_r_L.
  - unfold fill_columns in *. simpl. rewrite IH, dom_insert_L.
    rewrite (union_comm_L {[key]} (dom m)). by rewrite <- (assoc_L (∪)).
Qed.

Lemma fill_columns_values (record : model) (keys : list string) :
  ∀ m : gmap string value,
    (∀ k v, m !! k = Some v → v = get record k) →
    ∀ k v, fill_columns record m keys !! k = Some v → v = get record k.
Proof.
  induction keys as [|key keys IH]; intros m Hm k v; simpl.
  - apply Hm.
  - unfold fill_columns in *. simpl. apply IH.
    intros k' v' Hk'. destruct (decide (key = k')) as [->|Hne].
    + rewrite lookup_insert_eq in Hk'. congruence.
    + rewrite lookup_insert_ne in Hk' by done. by apply Hm.
Qed.

Section ColumnFacts.
Variables capitalize underscore : string → string.

Lemma columns_loop (limit : Z) (names : list string) :
  ∀ (count : Z) (columns : list column),
    foldl (columns_step capitalize underscore limit) (count, columns) names
    = (count + Z.of_nat (length names),
       columns
       ++ ((λ name, Column name
                      (capitalize (replace_underscore (underscore name))))
           <$> take (Z.to_nat (limit + 1 - count)) names)).
Proof.
  induction names as [|name names IH]; intros count columns.
  - simpl. rewrite take_nil. simpl. rewrite app_nil_r. f_equal. lia.
  - cbn [foldl columns_step]. destruct (limit <? count) eqn:Hcmp.
    + apply Z.ltb_lt in Hcmp. rewrite IH.
      replace (Z.to_nat (limit + 1 - (count + 1))) with 0%nat by lia.
      replace (Z.to_nat (limit + 1 - count)) with 0%nat by lia.
      simpl. f_equal. lia.
    + apply Z.ltb_ge in Hcmp. rewrite IH.
      replace (Z.to_nat (limit + 1 - count))
        with (S (Z.to_nat (limit + 1 - (count + 1)))) by lia.
      simpl. rewrite <- app_assoc. simpl. f_equal. lia.
Qed.

Lemma columnsForType_names (limit : Z) (type : modelType) :
  column_name <$> columnsForType capitalize underscore limit type
  = "id" :: take (Z.to_nat (limit + 1)) (type_attributes type).
Proof.
  unfold columnsForType. rewrite columns_loop. cbn [snd].
  rewrite fmap_app, <- list_fmap_compose. simpl. f_equal.
  rewrite Z.sub_0_r. apply list_fmap_id.
Qed.

(** X2. The columns announced for a type and the column values sent for a
    record of that type go together, whatever the limit: the column names
    are [id] and the first [attributeLimit + 1] attributes in order, the
    keys of [columnValues] are exactly those names, and each value is the
    record's current value of that property. *)
Theorem columnValues_match_columns (limit : Z) (type : modelType)
    (record : model) :
  attributes record = type_attributes type →
  let columns := columnsForType capitalize underscore limit type in
  column_name <$> columns
  = "id" :: take (Z.to_nat (limit + 1)) (type_attributes type)
  ∧ dom (getRecordColumnValues limit record)
    = list_to_set (column_name <$> columns)
  ∧ Forall (λ c, getRecordColumnValues limit record !! column_name c
                 = Some (get record (column_name c))) columns.
Proof.
  intros Hattrs columns. unfold columns.
  assert (dom (getRecordColumnValues limit record)
          = list_to_set
              (column_name <$> columnsForType capitalize underscore limit type))
    as Hdom.
  { rewrite columnsForType_names, getRecordColumnValues_eq, fill_columns_dom.
    rewrite Hattrs, dom_singleton_L. reflexivity. }
  split; [apply columnsForType_names|]. split; [exact Hdom|].
  apply Forall_forall. intros c Hc.
  assert (column_name c ∈ dom (getRecordColumnValues limit record)) as Hin.
  { rewrite Hdom. apply elem_of_list_to_set, list_elem_of_fmap. eauto. }
  apply elem_of_dom in Hin as [v Hv]. rewrite Hv. f_equal.
  rewrite getRecordColumnValues_eq in Hv.
  eapply fill_columns_values; [|exact Hv].
  intros k v' Hk. apply lookup_singleton_Some in Hk as [<- <-]. reflexivity.
Qed.

End ColumnFacts.

Lemma columnValues_match_columns_witness :
  attributes post = type_attributes (ModelType "App.Post" ["title"; "body"] [])
  ∧ dom (getRecordColumnValues 3 post)
    = list_to_set
        (column_name
           <$> columnsForType (λ str, str) (λ str, str) 3
                 (ModelType "App.Post" ["title"; "body"] [])).
Proof.
  split; [reflexivity|].
  exact (proj1 (proj2 (columnValues_match_columns (λ str, str) (λ str, str) 3
                         (ModelType "App.Post" ["title"; "body"] []) post
                         eq_refl))).
Defined.

(** Only the first underscore of a name is turned into a space. *)
Example replace_underscore_first :
  replace_underscore "first_name_x" = "first name_x"
  ∧ replace_underscore "title" = "title".
Proof. split; reflexivity. Qed.

(** *** The groups of [_debugInfo] *)

(** The names of the relationships of one kind, in declaration order. *)
Lemma relationship_loop (rels : list (string * relationshipKind)) :
  ∀ belongs many expensive : list string,
    foldl relationship_step (belongs, many, expensive) rels
    = (belongs ++ (fst <$> filter (λ r, r.2 = belongsTo) rels),
       many ++ (fst <$> filter (λ r, r.2 = hasMany) rels),
       expensive ++ (fst <$> rels)).
Proof.
  induction rels as [|[name kind] rels IH]; intros belongs many expensive.
  - simpl. by rewrite !app_nil_r.
  - cbn [foldl relationship_step]. destruct kind; rewrite IH.
    + rewrite filter_cons_True by done.
      rewrite (filter_cons_False (λ r, r.2 = hasMany)) by done.
      simpl. by rewrite <- !app_assoc.
    + rewrite filter_cons_False by done.
      rewrite (filter_cons_True (λ r, r.2 = hasMany)) by done.
      simpl. by rewrite <- !app_assoc.
Qed.

(** X3. [_debugInfo] sorts every declared relationship into exactly one of the
    groups "Belongs To" and "Has Many", keeping the declaration order inside
    each group, and lists all of them as expensive; the "Attributes" group
    is [id] followed by the declared attributes, the keys whose values
    [getRecordKeywords] returns, in the same order. *)
Theorem debugInfo_groups (this : modelType) (record : model) :
  attributes record = type_attributes this →
  let belongs := fst <$> filter (λ r, r.2 = belongsTo) (type_relationships this) in
  let many := fst <$> filter (λ r, r.2 = hasMany) (type_relationships this) in
  _debugInfo this
  = PropertyInfo true
      [ PropertyGroup "Attributes" ("id" :: type_attributes this) (Some true);
        PropertyGroup "Belongs To" belongs (Some true);
        PropertyGroup "Has Many" many (Some true);
        PropertyGroup "Flags"
          ["isNew"; "isProxy"; "isPromise"; "isLoaded"; "isDeleted"] None ]
      (fst <$> type_relationships this)
  ∧ belongs ++ many ≡ₚ fst <$> type_relationships this
  ∧ get record <$> ("id" :: type_attributes this) = getRecordKeywords record.
Proof.
  intros Hattrs belongs many. split; [|split].
  - unfold _debugInfo. rewrite foldl_push, relationship_loop. reflexivity.
  - unfold belongs, many. rewrite <- fmap_app. apply fmap_Permutation.
    rewrite (list_filter_iff (λ r, r.2 = hasMany) (λ r, ¬ r.2 = belongsTo)).
    + apply filter_app_complement.
    + intros [name kind]. simpl. destruct kind; split; congruence.
  - rewrite getRecordKeywords_eq, Hattrs. reflexivity.
Qed.

Lemma debugInfo_groups_witness :
  expensiveProperties
    (_debugInfo (ModelType "App.Post" ["title"; "body"]
                   [("author", belongsTo); ("comments", hasMany);
                    ("blog", belongsTo)]))
  = ["author"; "comments"; "blog"]
  ∧ get post <$> ["id"; "title"; "body"] = getRecordKeywords post.
Proof.
  destruct (debugInfo_groups
              (ModelType "App.Post" ["title"; "body"]
                 [("author", belongsTo); ("comments", hasMany);
                  ("blog", belongsTo)]) post eq_refl) as (Hinfo & _ & Hkeys).
  split; [by rewrite Hinfo | exact Hkeys].
Defined.

(** ** Finding the model types *)

Section DiscoveryFacts.
Context {klass : Type} `{EqDecision klass}.
Variable EpModel : klass.
Variable EpModel_detect : klass → bool.

Lemma getModelTypes_eq (detect : klass → bool)
    (namespaces : list (TypeDiscovery.namespace (klass := klass))) :
  TypeDiscovery.getModelTypes detect namespaces
  = (λ p, p.1.2)
      <$> filter (λ p, p.2 = true ∧ detect p.1.2 = true) (concat namespaces).
Proof.
  unfold TypeDiscovery.getModelTypes.
  assert (∀ ns types,
            foldl (λ types property,
                     let '(key, k, own) := property in
                     if negb own then types
                     else if detect k then types ++ [k] else types) types ns
            = types ++ ((λ p : string * klass * bool, p.1.2)
                          <$> filter (λ p, p.2 = true ∧ detect p.1.2 = true) ns))
    as Hinner.
  { induction ns as [|[[key k] own] ns IH]; intros types; simpl.
    - by rewrite app_nil_r.
    - rewrite IH. destruct own; simpl.
      + destruct (detect k) eqn:Hk.
        * rewrite filter_cons_True by done. simpl. by rewrite <- app_assoc.
        * rewrite filter_cons_False; [done|]. simpl. intros [_ ?]. congruence.
      + rewrite filter_cons_False; [done|]. simpl. intros [? _]. congruence. }
  assert (∀ nss types,
            foldl (λ types ns,
                     foldl (λ types property,
                              let '(key, k, own) := property in
                              if negb own then types
                              else if detect k then types ++ [k] else types)
                           types ns) types nss
            = types ++ ((λ p : string * klass * bool, p.1.2)
                          <$> filter (λ p, p.2 = true ∧ detect p.1.2 = true)
                                (concat nss))) as Houter.
  { induction nss as [|ns nss IH]; intros types; simpl.
    - by rewrite app_nil_r.
    - rewrite IH, Hinner, filter_app, fmap_app. by rewrite <- app_assoc. }
  apply (Houter namespaces []).
Qed.

(** X4. The two ways [detect] is written accept the same classes; the types
    [getModelTypes] finds with it are exactly the values of own namespace
    properties that are subclasses of [Ep.Model] other than [Ep.Model]
    itself, once per property that holds them; with the [detect] of the base
    class nothing is found. *)
Theorem getModelTypes_finds_subclasses
    (namespaces : list (TypeDiscovery.namespace (klass := klass))) :
  (∀ k, TypeDiscovery.LoggingAdapter_detect EpModel EpModel_detect k
        = TypeDiscovery.DebugAdapter_detect EpModel EpModel_detect k)
  ∧ (∀ k, k ∈ TypeDiscovery.getModelTypes
                (TypeDiscovery.DebugAdapter_detect EpModel EpModel_detect)
                namespaces
          ↔ k ≠ EpModel ∧ EpModel_detect k = true
            ∧ ∃ key, (key, k, true) ∈ concat namespaces)
  ∧ TypeDiscovery.getModelTypes TypeDiscovery.BaseAdapter_detect namespaces = [].
Proof.
  split; [|split].
  - intros k. unfold TypeDiscovery.LoggingAdapter_detect,
      TypeDiscovery.DebugAdapter_detect.
    destruct (decide (k = EpModel)) as [->|Hne].
    + rewrite bool_decide_eq_true_2 by done.
      rewrite (bool_decide_eq_false_2 (EpModel ≠ EpModel)) by (intros H'; by apply H').
      by destruct (EpModel_detect EpModel).
    + rewrite bool_decide_eq_false_2 by done.
      rewrite (bool_decide_eq_true_2 (k ≠ EpModel)) by done.
      by destruct (EpModel_detect k).
  - intros k. rewrite getModelTypes_eq, list_elem_of_fmap. split.
    + intros ([[key k'] own] & -> & Hin). simpl.
      apply list_elem_of_filter in Hin as [[Hown Hdet] Hin]. simpl in *.
      subst own. unfold TypeDiscovery.DebugAdapter_detect in Hdet.
      apply andb_true_iff in Hdet as [Hne Hsub].
      apply bool_decide_eq_true in Hne. eauto.
    + intros (Hne & Hsub & key & Hin). exists (key, k, true). split; [done|].
      apply list_elem_of_filter. split; [|done]. simpl. split; [done|].
      unfold TypeDiscovery.DebugAdapter_detect.
      by rewrite bool_decide_eq_true_2, Hsub.
  - rewrite getModelTypes_eq. rewrite filter_none; [done|].
    apply Forall_forall. intros p _ [_ Hp]. discriminate.
Qed.

End DiscoveryFacts.

(** ** Teardown with any number of subscriptions *)

Lemma willDestroy_registry (remaining : nat) :
  ∀ (k : nat) (s : world),
    releaseMethods (forEach_from releaseMethods call_watchRelease k remaining s)
    = sweep k remaining (releaseMethods s).
Proof.
  induction remaining as [|n IH]; intros k s; simpl; [reflexivity|].
  rewrite IH. destruct (releaseMethods s !! k) as [release|]; [|reflexivity].
  by rewrite releaseMethods_call_watchRelease.
Qed.

Lemma sweep_beyond {A} `{EqDecision A} (remaining : nat) :
  ∀ (k : nat) (l : list A), (length l ≤ k)%nat → sweep k remaining l = l.
Proof.
  induction remaining as [|n IH]; intros k l Hk; simpl; [reflexivity|].
  rewrite lookup_ge_None_2 by done. apply IH. lia.
Qed.

Lemma filter_out_middle {A} `{EqDecision A} (x : A) (pre rest : list A) :
  NoDup (pre ++ x :: rest) →
  filter (λ y, y ≠ x) (pre ++ x :: rest) = pre ++ rest.
Proof.
  intros Hnd. apply NoDup_app in Hnd as (_ & Hpre & Hrest).
  apply NoDup_cons in Hrest as [Hx _].
  rewrite filter_app, filter_cons_False by (intros H'; by apply H').
  rewrite !filter_all; [done| |].
  - apply Forall_forall. intros y Hy ->. done.
  - apply Forall_forall. intros y Hy ->. apply (Hpre x); [done|]. by left.
Qed.

Lemma sweep_skipped {A} `{EqDecision A} (remaining : nat) :
  ∀ (pre rest : list A),
    NoDup (pre ++ rest) → (length rest ≤ remaining)%nat →
    sweep (length pre) remaining (pre ++ rest) = pre ++ skipped rest.
Proof.
  induction remaining as [|n IH]; intros pre rest Hnd Hlen.
  - destruct rest; [reflexivity | simpl in Hlen; lia].
  - destruct rest as [|x [|y rest]]; cbn [sweep skipped].
    + rewrite app_nil_r. rewrite lookup_ge_None_2 by done.
      apply sweep_beyond. lia.
    + rewrite list_lookup_middle by done. rewrite filter_out_middle by done.
      rewrite app_nil_r. apply sweep_beyond. lia.
    + rewrite list_lookup_middle by done. rewrite filter_out_middle by done.
      replace (pre ++ y :: rest) with ((pre ++ [y]) ++ rest)
        by (by rewrite <- app_assoc).
      replace (S (length pre)) with (length (pre ++ [y]))
        by (rewrite length_app; simpl; lia).
      rewrite IH.
      * by rewrite <- app_assoc.
      * rewrite <- app_assoc. simpl.
        apply NoDup_app in Hnd as (Hpre & Hdisj & Hrest).
        apply NoDup_cons in Hrest as [Hx Hrest].
        apply NoDup_app. split; [done|]. split; [|done].
        intros z Hz Hin. apply (Hdisj z Hz). by right.
      * simpl in Hlen. lia.
Qed.

Lemma skipped_sublist {A} (n : nat) :
  ∀ l : list A, (length l ≤ n)%nat → skipped l `sublist_of` l.
Proof.
  induction n as [|n IH]; intros l Hlen.
  - destruct l; [constructor | simpl in Hlen; lia].
  - destruct l as [|x [|y l]]; cbn [skipped].
    + constructor.
    + apply sublist_cons. constructor.
    + apply sublist_cons, sublist_skip, IH. simpl in Hlen. lia.
Qed.

Lemma skipped_NoDup {A} (l : list A) : NoDup l → NoDup (skipped l).
Proof.
  intros Hl.
  exact (sublist_NoDup _ _ Hl (skipped_sublist (length l) l (le_n _))).
Qed.

(** One pass of the loop over distinct releases leaves the ones at the odd
    positions. *)
Lemma one_pass_registry (s : world) :
  NoDup (releaseMethods s) →
  releaseMethods (forEach releaseMethods call_watchRelease s)
  = skipped (releaseMethods s).
Proof.
  intros Hnd. unfold forEach. rewrite willDestroy_registry.
  apply (sweep_skipped (length (releaseMethods s)) [] (releaseMethods s));
    [exact Hnd | lia].
Qed.

Lemma skipped_twice_nil {A} (l : list A) :
  skipped (skipped l) = [] ↔ (length l < 4)%nat.
Proof.
  destruct l as [|a [|b [|c [|d l]]]]; cbn [skipped length];
    split; intros H; try reflexivity; try lia; discriminate.
Qed.

(** X5. Teardown with any number of distinct outstanding releases. One pass
    of the loop (the inherited [willDestroy]) leaves the releases at the odd
    positions of the adapter's [releaseMethods] (the second, the fourth,
    ...) registered and never called. [willDestroy] of the revision that
    overrides it runs the loop twice, so what it leaves is every fourth
    release (the fourth, the eighth, ...): up to three outstanding releases
    are all cleared, four or more never all are. *)
Theorem willDestroy_leaves_every_fourth (s : world) :
  NoDup (releaseMethods s) →
  releaseMethods (DataAdapter_willDestroy s) = skipped (releaseMethods s)
  ∧ releaseMethods (willDestroy s) = skipped (skipped (releaseMethods s))
  ∧ (releaseMethods (willDestroy s) = []
     ↔ (length (releaseMethods s) < 4)%nat).
Proof.
  intros Hnd.
  assert (releaseMethods (DataAdapter_willDestroy s)
          = skipped (releaseMethods s)) as Hsuper
    by (by apply one_pass_registry).
  assert (releaseMethods (willDestroy s)
          = skipped (skipped (releaseMethods s))) as Hwill.
  { unfold willDestroy. cbv zeta. rewrite one_pass_registry.
    - by rewrite Hsuper.
    - rewrite Hsuper. by apply skipped_NoDup. }
  split; [exact Hsuper|]. split; [exact Hwill|].
  rewrite Hwill. apply skipped_twice_nil.
Qed.

Lemma willDestroy_leaves_every_fourth_witness :
  let w1 := watchRecords LoggingAdapter.self "Post" "a1" "u1" "r1" sample_store in
  let w2 := watchRecords LoggingAdapter.self "Comment" "a2" "u2" "r2" w1.2 in
  let w3 := watchRecords LoggingAdapter.self "Author" "a3" "u3" "r3" w2.2 in
  let w4 := watchRecords LoggingAdapter.self "Tag" "a4" "u4" "r4" w3.2 in
  let w5 := watchRecords LoggingAdapter.self "Blog" "a5" "u5" "r5" w4.2 in
  NoDup (releaseMethods w5.2)
  ∧ releaseMethods (DataAdapter_willDestroy w5.2)
    = skipped (releaseMethods w5.2)
  ∧ releaseMethods (willDestroy w5.2)
    = skipped (skipped (releaseMethods w5.2)).
Proof.
  intros w1 w2 w3 w4 w5.
  assert (NoDup (releaseMethods w5.2)) as Hnd.
  { refine (@bool_decide_unpack (NoDup (releaseMethods w5.2)) _ _).
    vm_compute. exact I. }
  destruct (willDestroy_leaves_every_fourth w5.2 Hnd) as (Hsuper & Hwill & _).
  split; [exact Hnd|]. split; [exact Hsuper | exact Hwill].
Defined.

(** Five subscriptions of the logging revision: one pass leaves the second
    and the fourth, [willDestroy] leaves the fourth. *)
Example five_subscriptions_torn_down :
  let w1 := watchRecords LoggingAdapter.self "Post" "a1" "u1" "r1" sample_store in
  let w2 := watchRecords LoggingAdapter.self "Comment" "a2" "u2" "r2" w1.2 in
  let w3 := watchRecords LoggingAdapter.self "Author" "a3" "u3" "r3" w2.2 in
  let w4 := watchRecords LoggingAdapter.self "Tag" "a4" "u4" "r4" w3.2 in
  let w5 := watchRecords LoggingAdapter.self "Blog" "a5" "u5" "r5" w4.2 in
  releaseMethods (DataAdapter_willDestroy w5.2) = [w2.1; w4.1]
  ∧ releaseMethods (willDestroy w5.2) = [w4.1].
Proof. split; vm_compute; reflexivity. Qed.

(** ** How often a change is reported *)

Lemma new_observers_listeners (self : adapter) (record : nat)
    (recordUpdated : recordUpdatedFn) (key : string) (s1 : world)
    (keys : list string) :
  ∀ n : nat,
    listener_event self s1
      <$> filter (λ o, o.1.1 = record ∧ o.1.2 = key)
            (new_observers record recordUpdated n keys)
    = (λ _, recordUpdated_call recordUpdated (wrapRecord self record s1).1)
        <$> filter (λ k, k = key) keys.
Proof.
  induction keys as [|k keys IH]; intros n; [reflexivity|].
  rewrite new_observers_cons. destruct (decide (k = key)) as [->|Hne].
  - rewrite !filter_cons_True by done. rewrite !fmap_cons, IH. reflexivity.
  - rewrite !filter_cons_False; [apply IH|done|]. simpl. intros [_ ?]. done.
Qed.

(** X6. After [observeRecord] (any revision: [keys0] is what [keysToObserve]
    starts with) on a record nothing else observes, a change of a property
    calls [recordUpdated] once for each time the property's name occurs
    among [keys0] and the declared attributes: never for a name outside that
    list (a status flag the revision does not list, a relationship), once
    for a listed name, twice for an attribute that is itself called like an
    entry of [keys0]. *)
Theorem recordUpdated_once_per_listed_key (self : adapter)
    (keys0 : list string) (s : world) (record : nat)
    (recordUpdated : recordUpdatedFn) (key : string) (v : value) :
  fresh_handlers s →
  Forall (λ o, o.1.1 ≠ record) (observers s) →
  let observed := observeRecord_from keys0 record recordUpdated s in
  let keys := keys0 ++ attributes (readRecord record s) in
  get (readRecord record observed.2) key ≠ v →
  let s' := Ember_set self record key v observed.2 in
  trace s'
  = trace observed.2
    ++ ((λ _, recordUpdated_call recordUpdated (wrapRecord self record s').1)
          <$> filter (λ k, k = key) keys).
Proof.
  intros Hfresh Hnone observed keys.
  assert (observed
          = (ObserveRelease (new_removeFns record recordUpdated (next s) keys),
             with_next (λ n, (n + length keys)%nat)
               (with_observers
                  (λ obs, obs ++ new_observers record recordUpdated (next s) keys)
                  s))) as Hobserved.
  { unfold observed. by rewrite observeRecord_from_eq. }
  rewrite Hobserved. cbn [fst snd]. intros Hne.
  rewrite Ember_set_eq by exact Hne. world_simpl.
  rewrite filter_app, fmap_app, new_observers_listeners.
  rewrite (filter_none _ (observers s)).
  - reflexivity.
  - eapply Forall_impl; [exact Hnone|]. intros o Ho [Hrec _]. done.
Qed.

Lemma recordUpdated_once_per_listed_key_witness :
  let self := DebugAdapter.self BaseAdapter.getRecords in
  let observed :=
    DebugAdapter.observeRecord 0 (ConsumerRecordUpdated "recordUpdated")
      sample_store in
  let consoled :=
    ConsoleAdapter.observeRecord 0 (ConsumerRecordUpdated "recordUpdated")
      sample_store in
  fresh_handlers sample_store
  ∧ Forall (λ o, o.1.1 ≠ 0%nat) (observers sample_store)
  ∧ trace (Ember_set self 0 "isDeleted" (VBool true) observed.2)
    = [Call1 "recordUpdated"
         (wrapRecord self 0
            (Ember_set self 0 "isDeleted" (VBool true) observed.2)).1]
  ∧ trace (Ember_set self 0 "isDeleted" (VBool true) consoled.2) = [].
Proof.
  intros self observed consoled.
  assert (fresh_handlers sample_store) as Hfresh.
  { intros o Ho. vm_compute in Ho. by apply elem_of_nil in Ho. }
  assert (Forall (λ o, o.1.1 ≠ 0%nat) (observers sample_store)) as Hnone
    by apply Forall_nil_2.
  split; [exact Hfresh|]. split; [exact Hnone|]. split.
  - refine (recordUpdated_once_per_listed_key self DebugAdapter.keysToObserve
              sample_store 0%nat (ConsumerRecordUpdated "recordUpdated")
              "isDeleted" (VBool true) Hfresh Hnone _).
    vm_compute. discriminate.
  - refine (recordUpdated_once_per_listed_key self ConsoleAdapter.keysToObserve
              sample_store 0%nat (ConsumerRecordUpdated "recordUpdated")
              "isDeleted" (VBool true) Hfresh Hnone _).
    vm_compute. discriminate.
Defined.

(** ** What the logging revision does with the resolved collection *)

Lemma settle_fulfilled_keeps_arrays (p values : nat) (s : world) :
  recordArrays (settle p (Fulfilled values) s) = recordArrays s.
Proof.
  unfold settle.
  apply (foldl_invariant (settle_entry p (Fulfilled values))
           (λ s', recordArrays s' = recordArrays s) (λ _, True)).
  - intros s' t Hs' _. rewrite <- Hs'.
    destruct t as [q [[var|var]|] r]; reflexivity.
  - apply Forall_forall. done.
  - reflexivity.
Qed.

(** X7. A subscription made with the logging revision never learns of the
    records its query resolves with: after the resolution the watched array
    is still the empty one [getRecords] created, nothing has been sent, and
    when the resolved array later changes (insertions or removals) the
    subscription is not told either. *)
Theorem resolved_collection_is_never_watched (type recordsAdded
    recordsUpdated recordsRemoved : string) (values idx removedCount : nat)
    (added : list nat) (s : world) :
  (values < next s)%nat →
  Forall (λ ao, ao.1 ≠ values) (arrayObservers s) →
  let w := watchRecords LoggingAdapter.self type recordsAdded recordsUpdated
             recordsRemoved s in
  let resolved := settle (watch_promise s) (Fulfilled values) w.2 in
  rel_records w.1 ≠ values
  ∧ readRecordArray (rel_records w.1) resolved = []
  ∧ trace resolved = trace s ++ [CallBatch recordsAdded []]
  ∧ trace (arrayReplace LoggingAdapter.self values idx removedCount added
             resolved)
    = trace resolved.
Proof.
  intros Hold Hnone w resolved.
  pose proof (LoggingAdapter_watchRecords_eq type recordsAdded recordsUpdated
                recordsRemoved s) as Hw.
  cbv zeta in Hw. fold w in Hw.
  destruct w as [release s1]. cbn [fst snd] in *.
  injection Hw as Hrelease Hs1.
  destruct (settle_silent (watch_promise s) (Fulfilled values) s1)
    as (Ht & _ & Ha & _).
  pose proof (settle_fulfilled_keeps_arrays (watch_promise s) values s1) as Hr.
  fold resolved in Ht, Ha, Hr. clearbody resolved.
  assert (filter (λ ao, ao.1 = values) (arrayObservers s1) = []) as Hnobody.
  { rewrite Hs1. world_simpl. apply filter_none.
    assert (Forall (λ ao : nat * arrayObserver, ¬ ao.1 = values)
              (arrayObservers s)) as Hs by exact Hnone.
    destruct (decide (_ ∈ arrayObservers s)); [exact Hs|].
    apply Forall_app. split; [exact Hs|].
    apply Forall_singleton. simpl. lia. }
  split; [rewrite Hrelease; simpl; lia|].
  split.
  { unfold readRecordArray. rewrite Hr, Hs1, Hrelease. world_simpl.
    cbn [rel_records]. by rewrite lookup_insert_eq. }
  split; [by rewrite Ht, Hs1|].
  unfold arrayReplace. world_simpl. rewrite Ha, Hnobody. reflexivity.
Qed.

Lemma resolved_collection_is_never_watched_witness :
  (1 < next sample_store)%nat
  ∧ Forall (λ ao, ao.1 ≠ 1%nat) (arrayObservers sample_store)
  ∧ (let w := watchRecords LoggingAdapter.self "Post" "recordsAdded"
                "recordsUpdated" "recordsRemoved" sample_store in
     let resolved := settle (watch_promise sample_store) (Fulfilled 1) w.2 in
     trace (arrayReplace LoggingAdapter.self 1 1 0 [0%nat] resolved)
     = trace resolved).
Proof.
  assert (1 < next sample_store)%nat as Hold by (vm_compute; lia).
  assert (Forall (λ ao, ao.1 ≠ 1%nat) (arrayObservers sample_store)) as Hnone
    by apply Forall_nil_2.
  split; [exact Hold|]. split; [exact Hnone|].
  exact (proj2 (proj2 (proj2
           (resolved_collection_is_never_watched "Post" "recordsAdded"
              "recordsUpdated" "recordsRemoved" 1 1 0 [0%nat] sample_store
              Hold Hnone)))).
Defined.

Lemma LoggingAdapter_wrapModelType_eq
    (columnsForType : modelType → list column) (type : modelType) (s : world) :
  wrapModelType LoggingAdapter.self columnsForType type s
  = (WrappedType (type_toString type) 0 (columnsForType type) type,
     World (records s) (observers s) (<[next s := []]> (recordArrays s))
       (arrayObservers s) (releaseArrays s) (releaseMethods s)
       (<[S (next s) := next s]> (variables s))
       (<[S (S (next s)) := type_toString type]> (promises s))
       (thens s ++ [ThenEntry (S (S (next s)))
                      (Some (GetRecordsFulfilled (S (next s))))
                      (Some (GetRecordsRejected (S (next s))))])
       (unhandled s) (trace s) (S (S (S (next s))))).
Proof.
  destruct s as [recs obs arrays arrobs rels reg vars proms ths unh tr n].
  unfold wrapModelType. unfold bind at 1.
  cbn [self_getRecords LoggingAdapter.self].
  rewrite LoggingAdapter_getRecords_eq.
  unfold bind, ret, readRecordArray. world_simpl.
  by rewrite lookup_insert_eq.
Qed.

Lemma BaseAdapter_wrapModelType_eq
    (columnsForType : modelType → list column) (type : modelType) (s : world) :
  wrapModelType BaseAdapter.self columnsForType type s
  = (WrappedType (type_toString type) 0 (columnsForType type) type,
     with_recordArrays <[next s := []]> (with_next S s)).
Proof.
  destruct s as [recs obs arrays arrobs rels reg vars proms ths unh tr n].
  unfold wrapModelType. unfold bind at 1.
  cbn [self_getRecords BaseAdapter.self].
  unfold BaseAdapter.getRecords, newRecordArray, bind, fresh, modify, ret,
    readRecordArray.
  world_simpl. by rewrite lookup_insert_eq.
Qed.

(** X8. In the logging revision and in the base class, [wrapModelType] reports
    a count of 0 for every type, whatever the store holds; in the logging
    revision every call also leaves one more pending query and one more pair
    of promise callbacks behind. Nothing is sent to the inspector. *)
Theorem wrapModelType_counts_nothing
    (columnsForType : modelType → list column) (type : modelType) (s : world) :
  let logged := wrapModelType LoggingAdapter.self columnsForType type s in
  let based := wrapModelType BaseAdapter.self columnsForType type s in
  logged.1 = WrappedType (type_toString type) 0 (columnsForType type) type
  ∧ based.1 = WrappedType (type_toString type) 0 (columnsForType type) type
  ∧ promises logged.2 !! (2 + next s)%nat = Some (type_toString type)
  ∧ length (thens logged.2) = S (length (thens s))
  ∧ trace logged.2 = trace s ∧ trace based.2 = trace s.
Proof.
  intros logged based.
  pose proof (LoggingAdapter_wrapModelType_eq columnsForType type s) as Hlogged.
  pose proof (BaseAdapter_wrapModelType_eq columnsForType type s) as Hbased.
  fold logged in Hlogged. fold based in Hbased.
  destruct logged as [wl sl], based as [wb sb]. cbn [fst snd].
  injection Hlogged as -> ->. injection Hbased as -> ->. world_simpl.
  split; [reflexivity|]. split; [reflexivity|].
  split; [apply lookup_insert_eq|].
  split; [rewrite length_app; simpl; lia|].
  split; reflexivity.
Qed.

(** ** A subscription while its array changes *)

Lemma new_observers_NoDup record recordUpdated n keys :
  NoDup (new_observers record recordUpdated n keys).
Proof.
  revert n. induction keys as [|key keys IH]; intros n.
  - apply NoDup_nil_2.
  - rewrite new_observers_cons. apply NoDup_cons. split; [|apply IH].
    intros Hin. apply elem_of_new_observers in Hin as [Hge _]. simpl in Hge. lia.
Qed.

Lemma new_observers_records record recordUpdated n keys :
  (λ o : nat * string * handler, o.1.1)
    <$> new_observers record recordUpdated n keys
  = replicate (length keys) record.
Proof.
  revert n. induction keys as [|key keys IH]; intros n; [reflexivity|].
  rewrite new_observers_cons. simpl. by rewrite IH.
Qed.

Lemma exec_mapM_cons {A B} (f : A → M B) (x : A) (l : list A) (s : world) :
  exec (mapM f (x :: l)) s = exec (mapM f l) (exec (f x) s).
Proof.
  unfold exec. cbn [mapM]. unfold bind.
  destruct (f x s) as [y s1]. simpl. destruct (mapM f l s1) as [ys s2].
  reflexivity.
Qed.

Section ArrayChanges.
Variable self : adapter.
Variable keys0 : list string.
Hypothesis Hobserve : self_observeRecord self = observeRecord_from keys0.

(** One round of the loop of [contentDidChange], for the record found at
    index [i]. *)
Lemma contentDidChange_at_eq (o : arrayObserver) (array i record : nat)
    (s : world) :
  fresh_handlers s →
  readRecordArray array s !! i = Some record →
  let recordUpdated := WatchRecordUpdated (ao_recordsUpdated o) in
  let keys := keys0 ++ attributes (readRecord record s) in
  exec (contentDidChange_at self o array i) s
  = with_trace
      (λ t, t ++ [CallBatch (ao_recordsAdded o) [(wrapRecord self record s).1]])
      (pushRelease (ao_releaseMethods o)
         (ObserveRelease (new_removeFns record recordUpdated (next s) keys))
         (with_next (λ n, (n + length keys)%nat)
            (with_observers
               (λ obs, obs ++ new_observers record recordUpdated (next s) keys)
               s))).
Proof.
  intros Hfresh Hlookup recordUpdated keys.
  unfold exec, contentDidChange_at. rewrite Hlookup.
  unfold bind at 1. unfold wrapRecord at 1. unfold bind at 1.
  rewrite Hobserve, observeRecord_from_eq by done.
  reflexivity.
Qed.

Lemma elem_of_new_observers_lt record recordUpdated n keys o :
  o ∈ new_observers record recordUpdated n keys →
  (handler_id o.2 < n + length keys)%nat.
Proof.
  unfold new_observers. intros Ho.
  apply list_elem_of_lookup in Ho as [i Hi].
  rewrite list_lookup_imap in Hi.
  destruct (keys !! i) as [key|] eqn:Hkey; simplify_eq/=.
  apply lookup_lt_Some in Hkey. lia.
Qed.

Lemma grown_nil (o : arrayObserver) (s : world) :
  fresh_handlers s → grown self keys0 o [] s s.
Proof.
  intros Hfresh. repeat (split; [done|]).
  split; [by rewrite app_nil_r|].
  exists []. cbn [fmap list_fmap concat]. rewrite !app_nil_r.
  split; [done|]. split; [done|]. split; [done|].
  split; [apply Forall_nil_2 | apply NoDup_nil_2].
Qed.

Lemma contentDidChange_loop (o : arrayObserver) (array : nat)
    (rs : list nat) :
  ∀ (idx : nat) (s : world),
    fresh_handlers s →
    (∀ j r, rs !! j = Some r → readRecordArray array s !! (idx + j)%nat = Some r) →
    grown self keys0 o rs s
      (exec (mapM (contentDidChange_at self o array) (seq idx (length rs))) s).
Proof.
  induction rs as [|r rs IH]; intros idx s Hfresh Hlookup.
  - by apply grown_nil.
  - cbn [length seq]. rewrite exec_mapM_cons.
    assert (readRecordArray array s !! idx = Some r) as Hr.
    { specialize (Hlookup 0%nat r eq_refl). by rewrite Nat.add_0_r in Hlookup. }
    rewrite (contentDidChange_at_eq o array idx r s Hfresh Hr).
    set (recordUpdated := WatchRecordUpdated (ao_recordsUpdated o)).
    set (keys := keys0 ++ attributes (readRecord r s)).
    set (s1 := with_trace _ _).
    assert (fresh_handlers s1) as Hfresh1.
    { intros ob Hob. unfold s1, pushRelease in *. world_simpl. simpl in Hob.
      apply elem_of_app in Hob as [Hob|Hob].
      - apply Hfresh in Hob. lia.
      - by apply elem_of_new_observers_lt in Hob. }
    destruct (IH (S idx) s1 Hfresh1) as
      (Hf & Hrec & Harr & Hao & Hrm & Htr & fns & Hfns & Hobs & Hsp & Hge & Hnd).
    { intros j r' Hj. specialize (Hlookup (S j) r' Hj).
      by rewrite Nat.add_succ_r in Hlookup. }
    split; [exact Hf|]. split; [by rewrite Hrec|]. split; [by rewrite Harr|].
    split; [by rewrite Hao|]. split; [by rewrite Hrm|]. split.
    { rewrite Htr. unfold s1. world_simpl. rewrite <- app_assoc.
      rewrite fmap_cons. do 2 f_equal. }
    exists (ObserveRelease (new_removeFns r recordUpdated (next s) keys) :: fns).
    cbn [fmap list_fmap concat release_targets].
    rewrite fmap_app, observer_of_new_removeFns.
    split.
    { rewrite Hfns. unfold s1, pushRelease, readReleaseArray. world_simpl.
      rewrite lookup_insert_eq. simpl. by rewrite <- app_assoc. }
    split.
    { rewrite Hobs. unfold s1, pushRelease. world_simpl.
      by rewrite <- app_assoc. }
    split.
    { rewrite fmap_app, Hsp, new_observers_records. unfold spawned_for.
      simpl. unfold keys. rewrite length_app. reflexivity. }
    split.
    { apply Forall_app. split.
      - apply Forall_forall. intros ob Hob.
        by apply elem_of_new_observers in Hob as [? _].
      - eapply Forall_impl; [exact Hge|]. intros ob Hob.
        unfold s1, pushRelease in Hob. simpl in Hob. lia. }
    apply NoDup_app. split; [apply new_observers_NoDup|]. split; [|exact Hnd].
    intros ob Hob Hin. apply elem_of_new_observers_lt in Hob.
    rewrite Forall_forall in Hge. apply Hge in Hin.
    unfold s1, pushRelease in Hin. simpl in Hin. lia.
Qed.

End ArrayChanges.

Lemma exec_then {A B} (m : M A) (k : M B) (s : world) :
  exec (do_ m; k) s = exec k (exec m s).
Proof. unfold exec, bind. by destruct (m s). Qed.

Lemma filter_remove_first {A} `{EqDecision A} (P : A → Prop)
    `{∀ x, Decision (P x)} (x : A) (l : list A) :
  P x → filter P (remove_first x l) = remove_first x (filter P l).
Proof.
  intros Hx. induction l as [|y l IH]; [reflexivity|]. simpl.
  destruct (decide (x = y)) as [<-|Hne].
  - rewrite filter_cons_True by done. simpl.
    by destruct (decide (x = x)).
  - destruct (decide (P y)).
    + rewrite !filter_cons_True by done. simpl.
      destruct (decide (x = y)); [done|]. by rewrite IH.
    + rewrite !filter_cons_False by done. exact IH.
Qed.

Lemma arrayReplace_live (self : adapter)
    (keys0 : list string) (obs0 : list (nat * string * handler))
    (release : watchRelease) (idx removedCount : nat) (added : list nat)
    (s : world) :
  self_observeRecord self = observeRecord_from keys0 →
  watching obs0 release s →
  (idx ≤ length (readRecordArray (rel_records release) s))%nat →
  let l := readRecordArray (rel_records release) s in
  let o := rel_observer release in
  let s' := arrayReplace self (rel_records release) idx removedCount added s in
  watching obs0 release s'
  ∧ readRecordArray (rel_records release) s'
    = take idx l ++ added ++ drop (idx + removedCount) l
  ∧ trace s'
    = trace s
      ++ ((λ r, CallBatch (ao_recordsAdded o) [(wrapRecord self r s).1])
            <$> added)
      ++ (if decide (removedCount = 0%nat) then []
          else [CallRemoved (ao_recordsRemoved o) idx removedCount])
  ∧ ∃ news, observers s' = observers s ++ news
            ∧ (λ ob : nat * string * handler, ob.1.1) <$> news
              = spawned_for keys0 s added.
Proof.
  intros Hobserve (Hfresh & Hnd & Hobs & Hlisteners & Hloc) Hidx l o s'.
  set (array := rel_records release) in *.
  set (s0 := with_recordArrays
               <[array := take idx l ++ added ++ drop (idx + removedCount) l]> s).
  assert (s' = exec (contentDidChange self o array idx removedCount
                       (length added)) s0) as Hs'.
  { unfold s', arrayReplace. fold array. fold l. fold s0.
    replace (arrayObservers s0) with (arrayObservers s) by reflexivity.
    rewrite Hlisteners. reflexivity. }
  assert (fresh_handlers s0) as Hfresh0 by exact Hfresh.
  destruct (contentDidChange_loop self keys0 Hobserve o array added idx s0 Hfresh0)
    as (Hf & Hrec & Harr & Hao & Hrm & Htr & fns & Hfns & Hob & Hsp & Hge & Hndn).
  { intros j r Hj. unfold readRecordArray, s0. world_simpl.
    rewrite lookup_insert_eq. simpl.
    assert (length (take idx l) = idx) as Htake
      by (rewrite length_take; unfold l; lia).
    rewrite lookup_app_r by lia. rewrite Htake.
    replace (idx + j - idx)%nat with j by lia.
    by apply lookup_app_l_Some. }
  set (s1 := exec (mapM (contentDidChange_at self o array)
                     (seq idx (length added))) s0) in *.
  assert (s' = (if decide (removedCount = 0%nat) then s1
                else with_trace
                       (λ t, t ++ [CallRemoved (ao_recordsRemoved o) idx
                                     removedCount]) s1)) as Hs1.
  { rewrite Hs'. unfold contentDidChange. rewrite exec_then. fold s1.
    by destruct (decide (removedCount = 0%nat)). }
  assert (observers s' = observers s1 ∧ records s' = records s1
          ∧ recordArrays s' = recordArrays s1
          ∧ arrayObservers s' = arrayObservers s1
          ∧ releaseArrays s' = releaseArrays s1 ∧ next s' = next s1
          ∧ trace s'
            = trace s1
              ++ (if decide (removedCount = 0%nat) then []
                  else [CallRemoved (ao_recordsRemoved o) idx removedCount]))
    as (Eobs & Erec & Earr & Eao & Erel & Enext & Etr).
  { rewrite Hs1. destruct (decide (removedCount = 0%nat));
      repeat split; try reflexivity. by rewrite app_nil_r. }
  clearbody s' s1. clear Hs' Hs1.
  assert (watch_targets release s'
          = watch_targets release s ++ concat (release_targets <$> fns))
    as Htargets.
  { assert (readReleaseArray (rel_releaseMethods release) s'
            = readReleaseArray (rel_releaseMethods release) s ++ fns) as Hra.
    { rewrite <- Hloc. unfold readReleaseArray at 1. rewrite Erel.
      exact Hfns. }
    unfold watch_targets. rewrite Hra. by rewrite fmap_app, concat_app. }
  assert (observers s'
          = observers s ++ (observer_of <$> concat (release_targets <$> fns)))
    as Hgrow by (by rewrite Eobs, Hob).
  split; [|split; [|split]].
  - split; [|split; [|split; [|split]]].
    + intros ob Hin. rewrite Eobs in Hin. rewrite Enext. by apply Hf.
    + rewrite Hgrow. apply NoDup_app. split; [exact Hnd|]. split; [|exact Hndn].
      intros ob Hin Hnew. apply Hfresh in Hin.
      rewrite Forall_forall in Hge. apply Hge in Hnew.
      unfold s0 in Hnew. simpl in Hnew. lia.
    + rewrite Hgrow, Htargets, fmap_app, Hobs. by rewrite <- app_assoc.
    + rewrite Eao, Hao. exact Hlisteners.
    + exact Hloc.
  - unfold readRecordArray. rewrite Earr, Harr. unfold s0. world_simpl.
    by rewrite lookup_insert_eq.
  - rewrite Etr, Htr. rewrite <- app_assoc. reflexivity.
  - eexists. split; [exact Hgrow|]. exact Hsp.
Qed.

(** X9. A change of a watched array. Every inserted record is announced by one
    call of [recordsAdded] with a batch of one, in index order, and gets
    one observer per observed key; then a removal is announced by one call
    of [recordsRemoved], and only when something was removed. The observers
    of removed records are not released: the observer table only grows.
    The subscription stays live. *)
Theorem arrayReplace_reports_the_change (self : adapter)
    (keys0 : list string) (obs0 : list (nat * string * handler))
    (release : watchRelease) (idx removedCount : nat) (added : list nat)
    (s : world) :
  self_observeRecord self = observeRecord_from keys0 →
  watching obs0 release s →
  (idx ≤ length (readRecordArray (rel_records release) s))%nat →
  let l := readRecordArray (rel_records release) s in
  let o := rel_observer release in
  let s' := arrayReplace self (rel_records release) idx removedCount added s in
  watching obs0 release s'
  ∧ readRecordArray (rel_records release) s'
    = take idx l ++ added ++ drop (idx + removedCount) l
  ∧ trace s'
    = trace s
      ++ ((λ r, CallBatch (ao_recordsAdded o) [(wrapRecord self r s).1])
            <$> added)
      ++ (if decide (removedCount = 0%nat) then []
          else [CallRemoved (ao_recordsRemoved o) idx removedCount])
  ∧ ∃ news, observers s' = observers s ++ news
            ∧ (λ ob : nat * string * handler, ob.1.1) <$> news
              = spawned_for keys0 s added.
Proof. apply arrayReplace_live. Qed.

(** X10. Calling [release] on a live subscription removes every observer the
    subscription has spawned, however the array has changed in between,
    detaches its array observer and takes it out of the adapter's
    [releaseMethods]; no callback of the inspector runs. *)
Theorem release_removes_every_spawned_observer
    (obs0 : list (nat * string * handler)) (release : watchRelease)
    (s : world) :
  watching obs0 release s →
  let s' := call_watchRelease release s in
  observers s' = obs0
  ∧ filter (λ ao, ao.1 = rel_records release) (arrayObservers s') = []
  ∧ (release ∉ releaseMethods s')
  ∧ trace s' = trace s.
Proof.
  intros (Hfresh & Hnd & Hobs & Hlisteners & Hloc) s'.
  unfold s'. rewrite call_watchRelease_eq.
  unfold removeObject, removeArrayObserver. world_simpl.
  split; [|split; [|split]].
  - rewrite Hobs. apply drop_new_observers.
    intros fn Hfn Hin. rewrite Hobs in Hnd.
    apply NoDup_app in Hnd as (_ & Hdisj & _).
    apply (Hdisj _ Hin). apply list_elem_of_fmap. eauto.
  - rewrite filter_remove_first by done. rewrite Hlisteners. simpl.
    by destruct (decide (_ = _)).
  - intros Hin. apply list_elem_of_filter in Hin as [Hne _]. by apply Hne.
  - reflexivity.
Qed.

(** [watchRecords] of the logging revision starts a live subscription in
    any world whose identities are fresh. *)
Lemma watchRecords_starts_watching (type recordsAdded recordsUpdated
    recordsRemoved : string) (s : world) :
  fresh_handlers s → NoDup (observers s) →
  Forall (λ ao, (ao.1 ≤ next s)%nat) (arrayObservers s) →
  let w := watchRecords LoggingAdapter.self type recordsAdded recordsUpdated
             recordsRemoved s in
  watching (observers s) w.1 w.2.
Proof.
  intros Hfresh Hnd Hold w.
  pose proof (LoggingAdapter_watchRecords_eq type recordsAdded recordsUpdated
                recordsRemoved s) as Hw.
  cbv zeta in Hw. fold w in Hw.
  destruct w as [release s1]. cbn [fst snd] in *.
  injection Hw as Hrelease Hs1.
  assert (Forall (λ ao : nat * arrayObserver, ¬ ao.1 = S (next s))
            (arrayObservers s)) as Hnone.
  { eapply Forall_impl; [exact Hold|]. intros ao Hao. simpl in Hao. lia. }
  rewrite Hs1, Hrelease. unfold watching, watch_targets, readReleaseArray.
  world_simpl. cbn [rel_records rel_observer rel_releaseMethods
                    ao_releaseMethods].
  rewrite lookup_insert_eq. cbn [default fmap list_fmap concat].
  split.
  { intros ob Hin. world_simpl. apply Hfresh in Hin. lia. }
  split; [exact Hnd|]. split; [by rewrite app_nil_r|]. split; [|reflexivity].
  destruct (decide (_ ∈ arrayObservers s)) as [Hin|_].
  { rewrite Forall_forall in Hnone. by apply Hnone in Hin. }
  rewrite filter_app, filter_none by exact Hnone.
  by rewrite filter_cons_True.
Qed.

(** A subscription on the sample store, the one record inserted into the
    watched array, then removed again. *)
Lemma sample_subscription_is_live :
  let w := watchRecords LoggingAdapter.self "Post" "recordsAdded"
             "recordsUpdated" "recordsRemoved" sample_store in
  watching [] w.1 w.2.
Proof.
  apply (watchRecords_starts_watching "Post" "recordsAdded" "recordsUpdated"
           "recordsRemoved" sample_store).
  - intros o Ho. vm_compute in Ho. by apply elem_of_nil in Ho.
  - apply NoDup_nil_2.
  - apply Forall_nil_2.
Defined.

Lemma sample_subscription_after_insertion :
  let w := watchRecords LoggingAdapter.self "Post" "recordsAdded"
             "recordsUpdated" "recordsRemoved" sample_store in
  watching [] w.1
    (arrayReplace LoggingAdapter.self (rel_records w.1) 0 0 [0%nat] w.2).
Proof.
  intros w.
  assert (0 ≤ length (readRecordArray (rel_records w.1) w.2))%nat as Hidx by lia.
  exact (proj1 (arrayReplace_live LoggingAdapter.self
                  LoggingAdapter.keysToObserve [] w.1 0 0 [0%nat] w.2 eq_refl
                  sample_subscription_is_live Hidx)).
Defined.

Lemma arrayReplace_reports_the_change_witness :
  let w := watchRecords LoggingAdapter.self "Post" "recordsAdded"
             "recordsUpdated" "recordsRemoved" sample_store in
  let s' := arrayReplace LoggingAdapter.self (rel_records w.1) 0 0 [0%nat] w.2 in
  watching [] w.1 w.2
  ∧ (0 ≤ length (readRecordArray (rel_records w.1) w.2))%nat
  ∧ watching [] w.1 s'
  ∧ trace s'
    = trace w.2
      ++ [CallBatch "recordsAdded"
            [(wrapRecord LoggingAdapter.self 0 w.2).1]] ++ [].
Proof.
  intros w s'.
  assert (0 ≤ length (readRecordArray (rel_records w.1) w.2))%nat as Hidx by lia.
  destruct (arrayReplace_reports_the_change LoggingAdapter.self
              LoggingAdapter.keysToObserve [] w.1 0 0 [0%nat] w.2 eq_refl
              sample_subscription_is_live Hidx) as (Hlive & _ & Htrace & _).
  split; [exact sample_subscription_is_live|]. split; [exact Hidx|].
  split; [exact Hlive | exact Htrace].
Defined.

Lemma release_removes_every_spawned_observer_witness :
  let w := watchRecords LoggingAdapter.self "Post" "recordsAdded"
             "recordsUpdated" "recordsRemoved" sample_store in
  let s' := arrayReplace LoggingAdapter.self (rel_records w.1) 0 0 [0%nat] w.2 in
  watching [] w.1 s'
  ∧ length (observers s') = 5%nat
  ∧ observers (call_watchRelease w.1 s') = [].
Proof.
  intros w s'.
  split; [exact sample_subscription_after_insertion|].
  split; [vm_compute; reflexivity|].
  exact (proj1 (release_removes_every_spawned_observer [] w.1 s'
                  sample_subscription_after_insertion)).
Defined.

(** ** Watching a collection that is there at once *)

Section SynchronousCollection.
Variable self : adapter.
Variable keys0 : list string.
Hypothesis Hobserve : self_observeRecord self = observeRecord_from keys0.

(** What the [map] callback of [watchRecords] does for one member. *)
Lemma watch_member_eq (loc : nat) (recordUpdated : recordUpdatedFn)
    (record : nat) (s : world) :
  fresh_handlers s →
  let keys := keys0 ++ attributes (readRecord record s) in
  (do fn <~ self_observeRecord self record recordUpdated;
   do_ modify (pushRelease loc fn);
   wrapRecord self record) s
  = ((wrapRecord self record s).1,
     pushRelease loc
       (ObserveRelease (new_removeFns record recordUpdated (next s) keys))
       (with_next (λ n, (n + length keys)%nat)
          (with_observers
             (λ obs, obs ++ new_observers record recordUpdated (next s) keys)
             s))).
Proof.
  intros Hfresh keys. unfold bind at 1.
  rewrite Hobserve, observeRecord_from_eq by done. reflexivity.
Qed.

Lemma watch_members_loop (loc : nat) (recordUpdated : recordUpdatedFn)
    (rs : list nat) :
  ∀ s : world,
    fresh_handlers s →
    ∃ s' : world,
      mapM (λ record,
              do fn <~ self_observeRecord self record recordUpdated;
              do_ modify (pushRelease loc fn);
              wrapRecord self record) rs s
      = ((λ r, (wrapRecord self r s).1) <$> rs, s')
    ∧ fresh_handlers s'
    ∧ records s' = records s
    ∧ recordArrays s' = recordArrays s
    ∧ arrayObservers s' = arrayObservers s
    ∧ releaseMethods s' = releaseMethods s
    ∧ trace s' = trace s
    ∧ ∃ fns : list recordRelease,
        readReleaseArray loc s' = readReleaseArray loc s ++ fns
        ∧ observers s'
          = observers s ++ (observer_of <$> concat (release_targets <$> fns))
        ∧ (λ o : nat * string * handler, o.1.1)
            <$> (observer_of <$> concat (release_targets <$> fns))
          = spawned_for keys0 s rs
        ∧ Forall (λ o : nat * string * handler, (next s ≤ handler_id o.2)%nat)
            (observer_of <$> concat (release_targets <$> fns))
        ∧ NoDup (observer_of <$> concat (release_targets <$> fns)).
Proof.
  induction rs as [|r rs IH]; intros s Hfresh.
  - exists s. cbn [mapM]. unfold ret. cbn [fmap list_fmap].
    repeat (split; [done|]).
    exists []. cbn [fmap list_fmap concat]. rewrite !app_nil_r.
    split; [done|]. split; [done|]. split; [done|].
    split; [apply Forall_nil_2 | apply NoDup_nil_2].
  - cbn [mapM]. unfold bind at 1.
    rewrite (watch_member_eq loc recordUpdated r s Hfresh).
    set (keys := keys0 ++ attributes (readRecord r s)).
    set (s1 := pushRelease _ _ _).
    assert (fresh_handlers s1) as Hfresh1.
    { intros ob Hob. unfold s1, pushRelease in *. world_simpl. simpl in Hob.
      apply elem_of_app in Hob as [Hob|Hob].
      - apply Hfresh in Hob. lia.
      - by apply elem_of_new_observers_lt in Hob. }
    destruct (IH s1 Hfresh1) as
      (s2 & Hrun & Hf & Hrec & Harr & Hao & Hrm & Htr & fns & Hfns & Hobs & Hsp
       & Hge & Hnd).
    exists s2. unfold bind at 1. rewrite Hrun. unfold ret.
    split; [reflexivity|]. split; [exact Hf|]. split; [by rewrite Hrec|].
    split; [by rewrite Harr|]. split; [by rewrite Hao|].
    split; [by rewrite Hrm|]. split; [by rewrite Htr|].
    exists (ObserveRelease (new_removeFns r recordUpdated (next s) keys) :: fns).
    cbn [fmap list_fmap concat release_targets].
    rewrite fmap_app, observer_of_new_removeFns.
    split.
    { rewrite Hfns. unfold s1, pushRelease, readReleaseArray. world_simpl.
      rewrite lookup_insert_eq. simpl. by rewrite <- app_assoc. }
    split.
    { rewrite Hobs. unfold s1, pushRelease. world_simpl.
      by rewrite <- app_assoc. }
    split.
    { rewrite fmap_app, Hsp, new_observers_records. unfold spawned_for.
      simpl. unfold keys. rewrite length_app. reflexivity. }
    split.
    { apply Forall_app. split.
      - apply Forall_forall. intros ob Hob.
        by apply elem_of_new_observers in Hob as [? _].
      - eapply Forall_impl; [exact Hge|]. intros ob Hob.
        unfold s1, pushRelease in Hob. simpl in Hob. lia. }
    apply NoDup_app. split; [apply new_observers_NoDup|]. split; [|exact Hnd].
    intros ob Hob Hin. apply elem_of_new_observers_lt in Hob.
    rewrite Forall_forall in Hge. apply Hge in Hin.
    unfold s1, pushRelease in Hin. simpl in Hin. lia.
Qed.

(** X11. [watchRecords] over a [getRecords] that hands back an array the store
    already holds (as [store.all(type)] would): the one call of
    [recordsAdded] carries the wrapped members in array order, every member
    gets one observer per observed key, the array is observed, the
    [release] returned is the last entry of the adapter's [releaseMethods],
    and the subscription is live. *)
Theorem watchRecords_sends_the_members (type recordsAdded recordsUpdated
    recordsRemoved : string) (array : nat) (s : world) :
  (∀ s', self_getRecords self type s' = (array, s')) →
  fresh_handlers s → NoDup (observers s) →
  Forall (λ ao, ao.1 ≠ array) (arrayObservers s) →
  let w := watchRecords self type recordsAdded recordsUpdated recordsRemoved s in
  let members := readRecordArray array s in
  watching (observers s) w.1 w.2
  ∧ rel_records w.1 = array
  ∧ trace w.2
    = trace s
      ++ [CallBatch recordsAdded ((λ r, (wrapRecord self r s).1) <$> members)]
  ∧ releaseMethods w.2 = releaseMethods s ++ [w.1]
  ∧ (λ o : nat * string * handler, o.1.1)
      <$> (observer_of <$> watch_targets w.1 w.2)
    = spawned_for keys0 s members.
Proof.
  intros Hget Hfresh Hnd Hnone w members.
  set (loc := next s).
  set (s0 := with_releaseArrays <[loc := []]> (with_next S s)).
  set (recordUpdated := WatchRecordUpdated recordsUpdated).
  assert (fresh_handlers s0) as Hfresh0.
  { intros ob Hob. apply Hfresh in Hob. simpl. lia. }
  destruct (watch_members_loop loc recordUpdated members s0 Hfresh0) as
    (s1 & Hrun & Hf & Hrec & Harr & Hao & Hrm & Htr & fns & Hfns & Hobs & Hsp
     & Hge & Hndn).
  set (ws := (λ r, (wrapRecord self r s0).1) <$> members) in Hrun.
  assert (w = (let observer :=
                 ArrayObserver loc recordsAdded recordsUpdated recordsRemoved in
               let release := WatchRelease loc array observer in
               (release,
                pushObject release
                  (with_trace (λ t, t ++ [CallBatch recordsAdded ws])
                     (addArrayObserver array observer s1))))) as Hw.
  { unfold w, watchRecords, newReleaseArray.
    unfold bind at 1. unfold bind at 1. unfold fresh at 1.
    unfold bind at 1. unfold modify at 1. unfold bind at 1. unfold ret at 1.
    fold loc. fold s0. rewrite Hget. unfold bind at 1. unfold bind at 1.
    fold recordUpdated.
    replace (readRecordArray array s0) with members by reflexivity.
    rewrite Hrun. reflexivity. }
  cbv zeta in Hw. clearbody w. subst w. cbn [fst snd].
  assert (ws = (λ r, (wrapRecord self r s).1) <$> members) as Hws
    by reflexivity.
  clearbody ws.
  assert (readReleaseArray loc s0 = []) as Hempty.
  { unfold readReleaseArray, s0. world_simpl. by rewrite lookup_insert_eq. }
  assert (Forall (λ ao : nat * arrayObserver, ¬ ao.1 = array)
            (arrayObservers s)) as Hnone' by exact Hnone.
  unfold pushObject, addArrayObserver, watching, watch_targets.
  unfold readReleaseArray at 1 2. world_simpl.
  cbn [rel_records rel_observer rel_releaseMethods ao_releaseMethods].
  fold (readReleaseArray loc s1). rewrite Hfns, Hempty. cbn [app].
  split; [|split; [reflexivity|split; [|split]]].
  - split; [exact Hf|]. split; [|split; [exact Hobs|split; [|reflexivity]]].
    + rewrite Hobs. apply NoDup_app. split; [exact Hnd|]. split; [|exact Hndn].
      intros ob Hin Hnew. apply Hfresh in Hin.
      rewrite Forall_forall in Hge. apply Hge in Hnew. simpl in Hnew. lia.
    + rewrite Hao. replace (arrayObservers s0) with (arrayObservers s)
        by reflexivity.
      destruct (decide (_ ∈ arrayObservers s)) as [Hin|_].
      { rewrite Forall_forall in Hnone'. by apply Hnone' in Hin. }
      rewrite filter_app, filter_none by exact Hnone'.
      by rewrite filter_cons_True.
  - rewrite Htr, Hws. reflexivity.
  - rewrite Hrm. reflexivity.
  - exact Hsp.
Qed.

End SynchronousCollection.

Lemma watchRecords_sends_the_members_witness :
  let self := DebugAdapter.self (λ _ s, (1%nat, s)) in
  let w := watchRecords self "Post" "recordsAdded" "recordsUpdated"
             "recordsRemoved" sample_store in
  fresh_handlers sample_store ∧ NoDup (observers sample_store)
  ∧ Forall (λ ao, ao.1 ≠ 1%nat) (arrayObservers sample_store)
  ∧ trace w.2
    = [CallBatch "recordsAdded" [(wrapRecord self 0 sample_store).1]].
Proof.
  intros self w.
  assert (fresh_handlers sample_store) as Hfresh.
  { intros o Ho. vm_compute in Ho. by apply elem_of_nil in Ho. }
  assert (NoDup (observers sample_store)) as Hnd by apply NoDup_nil_2.
  assert (Forall (λ ao, ao.1 ≠ 1%nat) (arrayObservers sample_store)) as Hnone
    by apply Forall_nil_2.
  split; [exact Hfresh|]. split; [exact Hnd|]. split; [exact Hnone|].
  exact (proj1 (proj2 (proj2
           (watchRecords_sends_the_members self DebugAdapter.keysToObserve
              eq_refl "Post" "recordsAdded" "recordsUpdated" "recordsRemoved"
              1 sample_store (λ s', eq_refl) Hfresh Hnd Hnone)))).
Defined.
